(** * IBG token dashboard: request governor, upstream client and polling store

    A shallow embedding of [src/lib/solana.ts] (the request queue, the retry
    policy, the upstream queries) and of the data provider component (the
    transaction merge, the static refresh and the unmount guard), with the
    properties of the specification stated over it.

    Modelling conventions.
    - A JavaScript [number] that carries a token amount, a percentage or a
      delay is a rational ([Q]): sums, products and quotients are exact, so
      rounding of IEEE doubles is outside the model.  Counters and array
      lengths are [nat], millisecond clock readings and HTTP statuses are [Z].
    - A JavaScript string is a [string] of 8-bit characters; [includes] is the
      case-sensitive substring test of [String.prototype.includes].
    - A promise is represented by what it settles to ([outcome]); an
      asynchronous function is cut at its [await]s into the synchronous
      segments that run between them. *)

From Stdlib Require Import ZArith QArith Qabs List String Ascii Bool Lia.
From Stdlib Require Import DecimalString Permutation Sorted.
From stdpp Require Import gmap strings.
Import ListNotations.

Local Open Scope string_scope.
Local Open Scope list_scope.
Local Open Scope nat_scope.

(* ===================================================================== *)
(** ** JavaScript values used by the code *)
(* ===================================================================== *)

Module Js.

(** [hay.includes(needle)]: is [needle] a contiguous, case-sensitive
    substring of [hay]. *)
Fixpoint includes (hay needle : string) : bool :=
  if String.prefix needle hay then true
  else match hay with
       | EmptyString => false
       | String _ rest => includes rest needle
       end.

(** White space stripped by [String.prototype.trim], restricted to the
    8-bit characters of the model: TAB, LF, VT, FF, CR, SPACE and NBSP. *)
Definition isWhiteSpace (c : ascii) : bool :=
  let n := nat_of_ascii c in
  ((9 <=? n) && (n <=? 13)) || (n =? 32) || (n =? 160).

Fixpoint trimStart (s : string) : string :=
  match s with
  | EmptyString => EmptyString
  | String c rest => if isWhiteSpace c then trimStart rest else s
  end.

(** Right trim: a character is kept when it is not white space or when
    something remains after it. *)
Fixpoint trimEnd (s : string) : string :=
  match s with
  | EmptyString => EmptyString
  | String c rest =>
      match trimEnd rest with
      | EmptyString => if isWhiteSpace c then EmptyString else String c EmptyString
      | kept => String c kept
      end
  end.

Definition trim (s : string) : string := trimEnd (trimStart s).

(** Template-literal rendering of an integer ([`${n}`]). *)
Definition numberToString (z : Z) : string :=
  NilEmpty.string_of_int (Z.to_int z).

(** A thrown value.  [isError] is [e instanceof Error]; [message] is
    [e.message], absent ([undefined]) on values that have none. *)
Record Thrown : Type := mkThrown {
  isError : bool;
  message : option string
}.

(** [new Error(msg)] *)
Definition Error (msg : string) : Thrown :=
  {| isError := true; message := Some msg |}.

(** [e.message?.includes(marker)], read as a condition: an absent message
    gives [undefined], which is falsy. *)
Definition messageIncludes (e : Thrown) (marker : string) : bool :=
  match message e with
  | Some m => includes m marker
  | None => false
  end.

(** What a promise settles to. *)
Inductive outcome (T : Type) : Type :=
| Resolved (v : T)
| Rejected (e : Thrown).
Arguments Resolved {T} v.
Arguments Rejected {T} e.

End Js.
Import Js.

(* ===================================================================== *)
(** ** Data model ([src/lib/solana.ts], interfaces) *)
(* ===================================================================== *)

Record TokenMetadata : Type := {
  md_name : string;
  md_symbol : string;
  md_decimals : Z;
  md_description : string;
  md_website : string;
  md_logoURI : string;
  md_tags : list string
}.

Record TokenTransfer : Type := {
  tt_fromUserAccount : option string;
  tt_toUserAccount : option string;
  tt_mint : string;
  tt_tokenAmount : Q
}.

Record NativeTransfer : Type := {
  nt_fromUserAccount : option string;
  nt_toUserAccount : option string;
  nt_amount : Q
}.

(** [EnhancedTokenTransaction], with the fields the modelled functions read.
    [description] and [type] are optional in the interface. *)
Record EnhancedTokenTransaction : Type := {
  signature : string;
  timestamp : Z;
  fee : Q;
  feePayer : string;
  description : option string;
  type : option string;
  source : option string;
  tokenTransfers : list TokenTransfer;
  nativeTransfers : list NativeTransfer
}.

Record TopHolder : Type := {
  th_address : string;
  th_amount : Q;
  th_percentage : Q
}.

Record RewardMetrics : Type := {
  totalRewardPool : Q;
  distributionPercentage : Q;
  rm_totalTransactions : nat;
  nextDistributionTime : Z
}.

Record TokenSupply : Type := {
  totalSupply : Q;
  circulatingSupply : Q;
  burnedSupply : Q
}.

(** The tracked mint, [JPG_TOKEN_MINT.toString()]. *)
Definition JPG_TOKEN_MINT : string := "DZJefTBdJ2Ui2YB1bWgi6Bv1TPPVZJMrvGrbCDjtjups".

(* ===================================================================== *)
(** ** Request governor ([src/lib/solana.ts], lines 271-417) *)
(* ===================================================================== *)

Module Governor.

(** *** Retry policy *)

(** Observable steps of one [retryWithBackoff] call: the [i]-th iteration
    invoking the operation, and a [delay(ms)] between two iterations. *)
Inductive event : Type :=
| Attempt (i : nat)
| Sleep (ms : Q).

(** The test of lines 336-339. *)
Definition isRateLimitError (e : Thrown) : bool :=
  messageIncludes e "429" || messageIncludes e "rate limit".

(** [baseDelay * Math.pow(2, i) + Math.random() * 1000], with [r] the value
    drawn from [Math.random()]. *)
Definition rateLimitDelay (baseDelay : Q) (i : nat) (r : Q) : Q :=
  (baseDelay * inject_Z (2 ^ Z.of_nat i) + r * 1000)%Q.

(** The wait chosen in the [catch] block after the failure [e] of
    iteration [i]. *)
Definition retryDelay (baseDelay : Q) (i : nat) (r : Q) (e : Thrown) : Q :=
  if isRateLimitError e then rateLimitDelay baseDelay i r else baseDelay.

Section Retry.
Context {T : Type}.
(** [fn k] is what the [k]-th invocation of the wrapped operation settles
    to; [random k] is the value [Math.random()] returns in iteration [k]. *)
Variable fn : nat -> outcome T.
Variable random : nat -> Q.
Variable maxRetries : nat.
Variable baseDelay : Q.

(** The [for (let i = 0; i < maxRetries; i++)] loop, entered at [i] with
    [left = maxRetries - i] iterations to go.  Falling out of the loop
    reaches the final [throw new Error("Max retries exceeded")]. *)
Fixpoint retryLoop (left i : nat) : outcome T * list event :=
  match left with
  | O => (Rejected (Error "Max retries exceeded"), [])
  | S left' =>
      match fn i with
      | Resolved v => (Resolved v, [Attempt i])
      | Rejected e =>
          if i =? maxRetries - 1 then (Rejected e, [Attempt i])
          else
            let rest := retryLoop left' (S i) in
            (fst rest, Attempt i :: Sleep (retryDelay baseDelay i (random i) e) :: snd rest)
      end
  end.

Definition retryWithBackoff : outcome T * list event := retryLoop maxRetries 0.
End Retry.

(** Number of times the operation was invoked. *)
Fixpoint attempts (tr : list event) : nat :=
  match tr with
  | [] => 0
  | Attempt _ :: tr' => S (attempts tr')
  | Sleep _ :: tr' => attempts tr'
  end.

(** The waits, in order. *)
Fixpoint sleeps (tr : list event) : list Q :=
  match tr with
  | [] => []
  | Attempt _ :: tr' => sleeps tr'
  | Sleep d :: tr' => d :: sleeps tr'
  end.


(** *** The two governed call paths *)

Record Response (B : Type) : Type := mkResponse {
  status : Z;
  text : string;
  body : B
}.
Arguments mkResponse {B} _ _ _.
Arguments status {B} _.
Arguments text {B} _.
Arguments body {B} _.

(** [response.ok]: a status in the range 200-299. *)
Definition ok {B} (r : Response B) : bool :=
  ((200 <=? status r) && (status r <=? 299))%Z.

(** The operation [fetchWithRetry] hands to [retryWithBackoff] (lines
    357-374), applied to what [fetch] settled to. *)
Definition fetchOperation {B} (fetched : outcome (Response B)) : outcome (Response B) :=
  match fetched with
  | Rejected e => Rejected e
  | Resolved response =>
      if negb (ok response) then
        if (status response =? 429)%Z then Rejected (Error "Rate limit exceeded")
        else Rejected (Error ("HTTP error! status: " ++ numberToString (status response)))
      else Resolved response
  end.

(** JSON-RPC reply body: [response.json()] either throws or yields an
    object with an [error] or a [result]. *)
Inductive RpcBody (R : Type) : Type :=
| RpcBadJson (e : Thrown)
| RpcError (msg : string)
| RpcResult (result : R).
Arguments RpcBadJson {R} e.
Arguments RpcError {R} msg.
Arguments RpcResult {R} result.

(** The operation [rpcCall] hands to [retryWithBackoff] (lines 385-412). *)
Definition rpcOperation {R} (fetched : outcome (Response (RpcBody R))) : outcome R :=
  match fetched with
  | Rejected e => Rejected e
  | Resolved response =>
      if negb (ok response) then
        if (status response =? 429)%Z then Rejected (Error "Rate limit exceeded")
        else Rejected (Error ("HTTP error! status: " ++ numberToString (status response)))
      else
        match body response with
        | RpcBadJson e => Rejected e
        | RpcError msg => Rejected (Error ("RPC Error: " ++ msg))
        | RpcResult result => Resolved result
        end
  end.

(** Both paths call [retryWithBackoff(op, 3, 2000)]. *)
Definition governedMaxRetries : nat := 3.
Definition governedBaseDelay : Q := 2000%Q.

(** What the function queued by [fetchWithRetry] does once the drain loop
    starts it; [transport k] is what the [k]-th [fetch] settles to. *)
Definition fetchWithRetryCall {B} (transport : nat -> outcome (Response B))
    (random : nat -> Q) : outcome (Response B) * list event :=
  retryWithBackoff (fun k => fetchOperation (transport k)) random
    governedMaxRetries governedBaseDelay.

Definition rpcCallCall {R} (transport : nat -> outcome (Response (RpcBody R)))
    (random : nat -> Q) : outcome R * list event :=
  retryWithBackoff (fun k => rpcOperation (transport k)) random
    governedMaxRetries governedBaseDelay.

(** *** The queue ([class RequestQueue]) *)

(** Where the single [process()] activation is suspended. *)
Inductive phase : Type :=
| Idle          (* no activation of [process] is alive *)
| AwaitBatch    (* at [await Promise.all(promises)] *)
| AwaitDelay.   (* at [await delay(this.batchDelay)] *)

Section Queue.
Context {V : Type}.
(** Queued calls are named by numbers; [run c] is what the function of
    call [c] settles to once started. *)
Variable run : nat -> outcome V.

Record RequestQueue : Type := mkQueue {
  queue : list nat;                 (* [this.queue], oldest first *)
  processing : bool;                (* [this.processing] *)
  pc : phase;
  inflight : list nat;              (* calls of the current batch not yet settled *)
  started : list nat;               (* every [fn()] invocation so far, in order *)
  handles : list (nat * outcome V)  (* promises returned by [add], once settled *)
}.

Definition batchSize : nat := 5.
Definition batchDelay : Q := 200%Q.

Definition emptyQueue : RequestQueue :=
  {| queue := []; processing := false; pc := Idle; inflight := [];
     started := []; handles := [] |}.

(** The [while (this.queue.length > 0)] test followed by the synchronous
    part of one iteration: [splice] a batch off the queue and invoke every
    function of it ([batch.map(async ...)] runs each callback up to its
    [await fn()], that is, through the call [fn()]), then suspend at
    [Promise.all].  When the test fails, [this.processing = false]. *)
Definition loopHead (q : RequestQueue) : RequestQueue :=
  match queue q with
  | [] =>
      {| queue := []; processing := false; pc := Idle; inflight := inflight q;
         started := started q; handles := handles q |}
  | _ :: _ =>
      let batch := firstn batchSize (queue q) in
      {| queue := skipn batchSize (queue q); processing := processing q;
         pc := AwaitBatch; inflight := batch;
         started := started q ++ batch; handles := handles q |}
  end.

(** [process()], from its call to its first suspension (or return). *)
Definition process (q : RequestQueue) : RequestQueue :=
  if processing q || (length (queue q) =? 0) then q
  else loopHead {| queue := queue q; processing := true; pc := pc q;
                   inflight := inflight q; started := started q;
                   handles := handles q |}.

(** [add(fn)]: the promise executor runs at once: push, then [process()]. *)
Definition add (c : nat) (q : RequestQueue) : RequestQueue :=
  process {| queue := queue q ++ [c]; processing := processing q; pc := pc q;
             inflight := inflight q; started := started q;
             handles := handles q |}.

Fixpoint removeCall (c : nat) (l : list nat) : list nat :=
  match l with
  | [] => []
  | x :: l' => if x =? c then l' else x :: removeCall c l'
  end.

(** The function of in-flight call [c] settles: its wrapper resolves or
    rejects the caller's promise with the same value (lines 302-307). *)
Definition settle (c : nat) (q : RequestQueue) : RequestQueue :=
  if existsb (Nat.eqb c) (inflight q) then
    {| queue := queue q; processing := processing q; pc := pc q;
       inflight := removeCall c (inflight q); started := started q;
       handles := handles q ++ [(c, run c)] |}
  else q.

(** Every call of the batch has settled and [process] resumes after
    [await Promise.all(promises)]: on to the inter-batch delay if the queue
    is not empty, else to the loop test, which fails.  Callers resumed by
    [settle] may have called [add] in between. *)
Definition batchSettled (q : RequestQueue) : RequestQueue :=
  match pc q, inflight q with
  | AwaitBatch, [] =>
      match queue q with
      | _ :: _ =>
          {| queue := queue q; processing := processing q; pc := AwaitDelay;
             inflight := []; started := started q; handles := handles q |}
      | [] => loopHead q
      end
  | _, _ => q
  end.

(** The inter-batch delay elapses: back to the loop test. *)
Definition delayElapsed (q : RequestQueue) : RequestQueue :=
  match pc q with
  | AwaitDelay => loopHead q
  | _ => q
  end.

(** What can happen to the queue. *)
Inductive action : Type :=
| Add (c : nat)
| Settle (c : nat)
| BatchSettled
| DelayElapsed.

Definition step (q : RequestQueue) (a : action) : RequestQueue :=
  match a with
  | Add c => add c q
  | Settle c => settle c q
  | BatchSettled => batchSettled q
  | DelayElapsed => delayElapsed q
  end.

(** The queue after a history of actions, from the freshly constructed
    [new RequestQueue()]. *)
Definition after (h : list action) : RequestQueue := fold_left step h emptyQueue.

(** What holds of the queue between two actions. *)
Definition consistent (q : RequestQueue) : Prop :=
  match pc q with
  | Idle => processing q = false /\ queue q = [] /\ inflight q = []
  | AwaitBatch => processing q = true
  | AwaitDelay => processing q = true /\ inflight q = [] /\ queue q <> []
  end.

(** *** The histories of the queue *)

(** The calls a history submits, in order. *)
Fixpoint addedCalls (h : list action) : list nat :=
  match h with
  | [] => []
  | Add c :: h' => c :: addedCalls h'
  | _ :: h' => addedCalls h'
  end.

(** The event loop letting a busy queue run on with no further [add]: the
    in-flight call at the head settles, or the batch is over, or the
    inter-batch delay elapses. *)
Definition drainStep (q : RequestQueue) : RequestQueue :=
  match pc q with
  | Idle => q
  | AwaitBatch =>
      match inflight q with
      | c :: _ => settle c q
      | [] => batchSettled q
      end
  | AwaitDelay => delayElapsed q
  end.

Fixpoint drain (steps : nat) (q : RequestQueue) : RequestQueue :=
  match steps with
  | O => q
  | S steps' => drain steps' (drainStep q)
  end.

(** Steps [drain] needs to bring the queue to rest. *)
Definition drainSteps (q : RequestQueue) : nat :=
  match pc q with
  | Idle => 0
  | AwaitBatch => 3 * length (queue q) + length (inflight q) + 1
  | AwaitDelay => 3 * length (queue q)
  end.

(** What every reachable queue satisfies: the phase agrees with the flag,
    a batch holds at most [batchSize] calls, each started call is either
    settled or in flight, and every settled promise carries what its call
    settled to. *)
Definition sound (q : RequestQueue) : Prop :=
  consistent q
  /\ length (inflight q) <= batchSize
  /\ Permutation (started q) (map fst (handles q) ++ inflight q)
  /\ Forall (fun h => snd h = run (fst h)) (handles q).

(** The settled value of the promise [add] returned for call [c]. *)
Fixpoint handleOf (c : nat) (hs : list (nat * outcome V)) : option (outcome V) :=
  match hs with
  | [] => None
  | (c', o) :: hs' => if c' =? c then Some o else handleOf c hs'
  end.
End Queue.

End Governor.

(* ===================================================================== *)
(** ** Upstream client ([src/lib/solana.ts]) *)
(* ===================================================================== *)

Module Client.
Import Governor.

(** [s || dflt] on an optional string: absent and empty are both falsy. *)
Definition orString (s : option string) (dflt : string) : string :=
  match s with
  | Some EmptyString | None => dflt
  | Some v => v
  end.

(** [x || dflt] on an optional number: absent and zero are both falsy. *)
Definition orNumber (x : option Q) (dflt : Q) : Q :=
  match x with
  | Some v => if Qeq_bool v 0%Q then dflt else v
  | None => dflt
  end.

(** [xs || []]: an array, even empty, is truthy. *)
Definition orArray {A} (xs : option (list A)) : list A :=
  match xs with
  | Some l => l
  | None => []
  end.

(** [l.slice(i, j)] for [0 <= i <= j]. *)
Definition slice {A} (i j : nat) (l : list A) : list A := firstn (j - i) (skipn i l).

(** [xs.filter(x => x !== null)] after a [map] that may yield [null]. *)
Fixpoint dropNull {A} (l : list (option A)) : list A :=
  match l with
  | [] => []
  | Some x :: l' => x :: dropNull l'
  | None :: l' => dropNull l'
  end.

(** [xs.reduce((sum, x) => sum + f(x), 0)] *)
Definition sumOf {A} (f : A -> Q) (l : list A) : Q :=
  fold_left (fun sum x => sum + f x)%Q l 0%Q.

(** *** Batch transaction parsing (lines 452-557) *)

(** One element of the array the parse endpoint returns, every field
    optional as the code treats it. *)
Record RawTx : Type := {
  raw_signature : option string;
  raw_timestamp : Z;
  raw_fee : option Q;
  raw_feePayer : option string;
  raw_description : option string;
  raw_type : option string;
  raw_source : option string;
  raw_tokenTransfers : option (list TokenTransfer);
  raw_nativeTransfers : option (list NativeTransfer)
}.

(** What [response.json()] gives on the transaction endpoints. *)
Inductive TxBody : Type :=
| TxBadJson (e : Thrown)                  (* [json()] throws *)
| TxNotArray                              (* [!Array.isArray(data)] *)
| TxArray (data : list (option RawTx)).   (* entries may be [null] *)

(** [parsedTx && parsedTx.signature] *)
Definition hasSignature (p : option RawTx) : bool :=
  match p with
  | Some r => match raw_signature r with
              | Some EmptyString | None => false
              | Some _ => true
              end
  | None => false
  end.

(** The object literal of lines 504-522. *)
Definition normalize (r : RawTx) : EnhancedTokenTransaction :=
  {| signature := orString (raw_signature r) "";
     timestamp := (raw_timestamp r * 1000)%Z;
     fee := orNumber (raw_fee r) 0%Q;
     feePayer := orString (raw_feePayer r) "";
     description := Some (orString (raw_description r) "");
     type := Some (orString (raw_type r) "UNKNOWN");
     source := Some (orString (raw_source r) "UNKNOWN");
     tokenTransfers := orArray (raw_tokenTransfers r);
     nativeTransfers := orArray (raw_nativeTransfers r) |}.

(** [data.filter(parsedTx => parsedTx && parsedTx.signature).map(...)] *)
Definition parseData (data : list (option RawTx)) : list EnhancedTokenTransaction :=
  map normalize (dropNull (List.filter hasSignature data)).

Definition parseBatchSize : nat := 3.

Section Parse.
(** [transport b batch k]: what the [k]-th [fetch] of sub-batch number [b],
    posting [batch], settles to.  [random b k]: the jitter draw there. *)
Variable transport : nat -> list string -> nat -> outcome (Response TxBody).
Variable random : nat -> nat -> Q.
Variable signatures : list string.

(** The decision of the inner [catch]: [break] keeps what was accumulated,
    otherwise the loop goes on ([continue]). *)
Definition stopsOn (e : Thrown) : bool := messageIncludes e "rate limit".

(** The [for (let i = 0; i < signatures.length; i += batchSize)] loop with
    [left] iterations to go.  Result: the accumulated [results] and the
    sub-batch numbers that were posted, in order. *)
Fixpoint parseLoop (left i : nat) (results : list EnhancedTokenTransaction)
    (posted : list nat) : list EnhancedTokenTransaction * list nat :=
  match left with
  | O => (results, posted)
  | S left' =>
      let b := i / parseBatchSize in
      let batch := slice i (i + parseBatchSize) signatures in
      let posted' := posted ++ [b] in
      let continue := parseLoop left' (i + parseBatchSize) in
      let caught (e : Thrown) :=
        if stopsOn e then (results, posted') else continue results posted' in
      match fst (fetchWithRetryCall (transport b batch) (random b)) with
      | Rejected e => caught e
      | Resolved response =>
          if negb (ok response) then
            if (status response =? 429)%Z
            then caught (Error ("Rate limit exceeded: " ++ text response))
            else caught (Error ("Helius API error " ++ numberToString (status response)
                                  ++ ": " ++ text response))
          else
            match body response with
            | TxBadJson e => caught e
            | TxNotArray => continue results posted'
            | TxArray data => continue (results ++ parseData data) posted'
            end
      end
  end.

(** Number of iterations of the loop: ceil(length / batchSize). *)
Definition batchCount : nat := (length signatures + (parseBatchSize - 1)) / parseBatchSize.

Definition parseTransactionsWithHeliusTrace : list EnhancedTokenTransaction * list nat :=
  if length signatures =? 0 then ([], [])
  else parseLoop batchCount 0 [] [].

Definition parseTransactionsWithHelius : list EnhancedTokenTransaction :=
  fst parseTransactionsWithHeliusTrace.
End Parse.

(** *** Parsing one transaction (lines 560-578) *)

(** [parseTransactionWithHelius(signature)]: [transactions[0] || null].
    [parseTransactionsWithHelius] never rejects, so the [catch] of this
    function, with its fallback to on-chain parsing, is never entered. *)
Definition parseTransactionWithHelius
    (transport : nat -> list string -> nat -> outcome (Response TxBody))
    (random : nat -> nat -> Q) (signature : string) : option EnhancedTokenTransaction :=
  match parseTransactionsWithHelius transport random [signature] with
  | tx :: _ => Some tx
  | [] => None
  end.

(** *** Top holders (lines 828-865) *)

(** An entry of [getTokenLargestAccounts]: [uiAmount] is a number or [null]. *)
Record LargestAccount : Type := {
  la_address : string;
  la_uiAmount : option Q
}.

(** [value] of a [getTokenSupply] result. *)
Record SupplyValue : Type := {
  sv_amount : Q;
  sv_decimals : Z
}.

(** [amount / Math.pow(10, decimals)] *)
Definition inTokens (sv : SupplyValue) : Q :=
  (sv_amount sv / 10 ^ sv_decimals sv)%Q.

(** The callback of [.map] (lines 846-857). *)
Definition toHolder (totalSupplyInTokens : Q) (account : LargestAccount) : option TopHolder :=
  match la_uiAmount account with
  | None => None
  | Some amount =>
      if Qeq_bool amount 0%Q then None
      else Some {| th_address := la_address account;
                   th_amount := amount;
                   th_percentage := ((amount / totalSupplyInTokens) * 100)%Q |}
  end.

(** [largestAccounts], [supplyResult]: what the two [rpcCall]s settle to.  A
    rejection of either lands in the [catch], which returns the empty list. *)
Definition getTopHolders (largestAccounts : outcome (list LargestAccount))
    (supplyResult : outcome SupplyValue) : list TopHolder :=
  match largestAccounts with
  | Rejected _ => []
  | Resolved accounts =>
      match supplyResult with
      | Rejected _ => []
      | Resolved sv =>
          let totalSupplyInTokens := inTokens sv in
          dropNull (map (toHolder totalSupplyInTokens) (firstn 25 accounts))
      end
  end.

(** *** Wallet lookup (lines 868-1074) *)

Record RawTokenAccount : Type := {
  rta_pubkey : string;
  rta_uiAmount : option Q;     (* [tokenAmount.uiAmount], number or [null] *)
  rta_owner : string
}.

Record TokenAccount : Type := {
  ta_address : string;
  ta_balance : Q;
  ta_owner : string
}.

Record WalletInfo : Type := {
  wi_address : string;
  wi_balance : Q;
  wi_percentage : Q;
  wi_rank : option Z;
  wi_totalTransactions : nat;
  wi_lastTransaction : option Z;
  wi_expectedDailyRewards : Q;
  wi_totalVolume : Q;
  wi_averageTransactionSize : Q;
  wi_isTopHolder : bool;
  wi_tokenAccounts : list TokenAccount
}.

(** [x > 0] on numbers. *)
Definition isPositive (x : Q) : bool := negb (Qle_bool x 0%Q).

(** [field === address] on an optional string field. *)
Definition isAddress (field : option string) (address : string) : bool :=
  match field with
  | Some a => String.eqb a address
  | None => false
  end.

(** [l.findIndex(p)], counting from [i]; [-1] when nothing matches. *)
Fixpoint findIndexFrom {A} (p : A -> bool) (l : list A) (i : Z) : Z :=
  match l with
  | [] => (-1)%Z
  | x :: l' => if p x then i else findIndexFrom p l' (i + 1)%Z
  end.

Definition findIndex {A} (p : A -> bool) (l : list A) : Z := findIndexFrom p l 0%Z.

(** The predicate of [walletTransactions] (lines 978-991). *)
Definition involvesWallet (address : string) (tx : EnhancedTokenTransaction) : bool :=
  String.eqb (feePayer tx) address
  || existsb (fun transfer => isAddress (tt_fromUserAccount transfer) address
                              || isAddress (tt_toUserAccount transfer) address)
             (tokenTransfers tx)
  || existsb (fun transfer => isAddress (nt_fromUserAccount transfer) address
                              || isAddress (nt_toUserAccount transfer) address)
             (nativeTransfers tx).

(** [t.mint === JPG_TOKEN_MINT.toString()] *)
Definition isJpgTransfer (t : TokenTransfer) : bool := String.eqb (tt_mint t) JPG_TOKEN_MINT.

(** The predicate of [jpgTransactions] (lines 995-999). *)
Definition hasJpgTransfer (tx : EnhancedTokenTransaction) : bool :=
  existsb isJpgTransfer (tokenTransfers tx).

(** The two nested [for] loops of lines 1013-1023, from the running total
    [acc]: every tracked-token transfer adds [Math.abs(transfer.tokenAmount)]. *)
Definition addTransfers (acc : Q) (tx : EnhancedTokenTransaction) : Q :=
  fold_left (fun total transfer => total + Qabs (tt_tokenAmount transfer))%Q
            (List.filter isJpgTransfer (tokenTransfers tx)) acc.

Definition volumeOf (jpgTransactions : list EnhancedTokenTransaction) : Q :=
  fold_left addTransfers jpgTransactions 0%Q.

Definition DAILY_TURNOVER_RATE : Q := 1%Q.
Definition SWAP_FEE_RATE : Q := 25%Q.
Definition LP_FEE_SHARE : Q := (1 # 2)%Q.

(** [rpcResult]: what [rpcCall("getTokenAccountsByOwner")] settles to, with
    its [value] (possibly absent); [supplyResult]: what
    [rpcCall("getTokenSupply")] settles to; [topHolders]: the result of
    [getTopHolders()]; [transactions]: the result of
    [getAddressTransactionHistory(address, 50)].  The last two never reject. *)
Definition getWalletInfo (address : string)
    (rpcResult : outcome (option (list RawTokenAccount)))
    (supplyResult : outcome SupplyValue)
    (topHolders : list TopHolder)
    (transactions : list EnhancedTokenTransaction) : option WalletInfo :=
  match rpcResult with
  | Rejected _ => None
  | Resolved None => None
  | Resolved (Some []) => None
  | Resolved (Some value) =>
      let rpcTokenAccounts :=
        List.filter (fun acc => isPositive (ta_balance acc))
          (map (fun account =>
                  {| ta_address := rta_pubkey account;
                     ta_balance := orNumber (rta_uiAmount account) 0%Q;
                     ta_owner := rta_owner account |}) value) in
      if length rpcTokenAccounts =? 0 then None
      else
        let totalBalance := sumOf ta_balance rpcTokenAccounts in
        match supplyResult with
        | Rejected _ => None
        | Resolved sv =>
            let totalSupplyInTokens := inTokens sv in
            let percentage := ((totalBalance / totalSupplyInTokens) * 100)%Q in
            let rank := (findIndex (fun holder => String.eqb (th_address holder) address)
                                   topHolders + 1)%Z in
            let isTopHolder := ((0 <? rank) && (rank <=? 25))%Z in
            let walletTransactions := List.filter (involvesWallet address) transactions in
            let jpgTransactions := List.filter hasJpgTransfer transactions in
            let totalTransactions := length walletTransactions in
            let lastTransaction :=
              match walletTransactions with
              | tx :: _ => Some (timestamp tx)
              | [] => None
              end in
            let totalVolume := volumeOf jpgTransactions in
            let averageTransactionSize :=
              if 0 <? totalTransactions
              then (totalVolume / inject_Z (Z.of_nat totalTransactions))%Q
              else 0%Q in
            let marketCap := totalSupplyInTokens in
            let dailyVolume := (marketCap * DAILY_TURNOVER_RATE)%Q in
            let dailySwapFees := (dailyVolume * SWAP_FEE_RATE)%Q in
            let dailyLpFees := (dailySwapFees * LP_FEE_SHARE)%Q in
            let expectedDailyRewards := (dailyLpFees * (percentage / 100))%Q in
            Some {| wi_address := address;
                    wi_balance := totalBalance;
                    wi_percentage := percentage;
                    wi_rank := if (0 <? rank)%Z then Some rank else None;
                    wi_totalTransactions := totalTransactions;
                    wi_lastTransaction := lastTransaction;
                    wi_expectedDailyRewards := expectedDailyRewards;
                    wi_totalVolume := totalVolume;
                    wi_averageTransactionSize := averageTransactionSize;
                    wi_isTopHolder := isTopHolder;
                    wi_tokenAccounts := rpcTokenAccounts |}
        end
  end.

(** *** Token metadata and its cache (lines 27-120) *)

(** [onChainMetadata.metadata.data] *)
Record OnChainData : Type := {
  oc_name : option string;
  oc_symbol : option string;
  oc_decimals : option Z;
  oc_description : option string
}.

Record OffChainData : Type := {
  off_description : option string;
  off_website : option string;
  off_image : option string;
  off_tags : option (list string)
}.

(** [metadataData[0]], when it is there.  [onChainMetadata = Some None] is
    an [onChainMetadata] object without [metadata.data]: reading through it
    throws a [TypeError]. *)
Record MetadataEntry : Type := {
  onChainMetadata : option (option OnChainData);
  offChainMetadata : option OffChainData
}.

Inductive MetadataBody : Type :=
| MetaBadJson (e : Thrown)
| MetaJson (first : option MetadataEntry).

(** The module-level variables [tokenMetadataCache] and
    [tokenMetadataCacheTime]. *)
Record MetadataCache : Type := mkCache {
  tokenMetadataCache : option TokenMetadata;
  tokenMetadataCacheTime : Z
}.

Definition initialCache : MetadataCache :=
  {| tokenMetadataCache := None; tokenMetadataCacheTime := 0 |}.

Definition CACHE_DURATION : Z := (5 * 60 * 1000)%Z.

(** Upstream requests [getTokenMetadata] can issue. *)
Inductive request : Type :=
| TokenMetadataFetch      (* [fetchWithRetry(".../token-metadata")] *)
| TokenSupplyRpc.         (* [rpcCall("getTokenSupply")] *)

(** What the two upstream calls would settle to if issued. *)
Record Upstream : Type := {
  metadataResponse : outcome (Response MetadataBody);
  tokenInfo : outcome SupplyValue
}.

(** [d || 6] on the decimals: absent and zero are both falsy. *)
Definition orDecimals (d : option Z) : Z :=
  match d with
  | Some v => if (v =? 0)%Z then 6%Z else v
  | None => 6%Z
  end.

(** The "ultimate fallback" of lines 104-112. *)
Definition hardcodedFallback : TokenMetadata :=
  {| md_name := "IPG"; md_symbol := "IPG"; md_decimals := 6;
     md_description := "Jupiter Printing Glitch Token";
     md_website := ""; md_logoURI := ""; md_tags := [] |}.

(** The RPC fallback of lines 85-93. *)
Definition rpcFallback (sv : SupplyValue) : TokenMetadata :=
  {| md_name := "JPG"; md_symbol := "JPG";
     md_decimals := orDecimals (Some (sv_decimals sv));
     md_description := "Jupiter Printing Glitch Token";
     md_website := ""; md_logoURI := ""; md_tags := [] |}.

(** The object literal of lines 60-71. *)
Definition fromUpstream (onChainData : OnChainData) (offChainData : option OffChainData)
    : TokenMetadata :=
  let off {A} (f : OffChainData -> option A) : option A :=
    match offChainData with Some o => f o | None => None end in
  {| md_name := orString (oc_name onChainData) "JPG";
     md_symbol := orString (oc_symbol onChainData) "JPG";
     md_decimals := orDecimals (oc_decimals onChainData);
     md_description :=
       orString (off off_description)
         (orString (oc_description onChainData) "Jupiter Printing Glitch Token");
     md_website := orString (off off_website) "";
     md_logoURI := orString (off off_image) "";
     md_tags := orArray (off off_tags) |}.

(** The test of line 36: a cache is there and is younger than
    [CACHE_DURATION] on the clock reading [now]. *)
Definition cacheHit (c : MetadataCache) (now : Z) : option TokenMetadata :=
  match tokenMetadataCache c with
  | Some m => if (now - tokenMetadataCacheTime c <? CACHE_DURATION)%Z then Some m else None
  | None => None
  end.

(** The [try]/[catch] of lines 40-119.  Result: the metadata returned, the
    cache afterwards, and the upstream requests issued, in order. *)
Definition refreshMetadata (now : Z) (up : Upstream)
    : TokenMetadata * MetadataCache * list request :=
  let cached (m : TokenMetadata) :=
    {| tokenMetadataCache := Some m; tokenMetadataCacheTime := now |} in
  let ultimate (reqs : list request) := (hardcodedFallback, cached hardcodedFallback, reqs) in
  let viaRpc :=
    match tokenInfo up with
    | Resolved sv => (rpcFallback sv, cached (rpcFallback sv), [TokenMetadataFetch; TokenSupplyRpc])
    | Rejected _ => ultimate [TokenMetadataFetch; TokenSupplyRpc]
    end in
  match metadataResponse up with
  | Rejected _ => ultimate [TokenMetadataFetch]
  | Resolved response =>
      match body response with
      | MetaBadJson _ => ultimate [TokenMetadataFetch]
      | MetaJson None => viaRpc
      | MetaJson (Some entry) =>
          match onChainMetadata entry with
          | None => viaRpc
          | Some None => ultimate [TokenMetadataFetch]
          | Some (Some onChainData) =>
              let metadata := fromUpstream onChainData (offChainMetadata entry) in
              (metadata, cached metadata, [TokenMetadataFetch])
          end
      end
  end.

(** [getTokenMetadata] is [async]: it reads [Date.now()] and tests the cache
    on entry (lines 33-38), then waits at its [await]s for upstream, and
    writes the cache only once they are over (lines 74-75, 96-97, 115-116),
    stamped with the reading taken on entry.  Other calls run while it
    waits.  The store below is the module state ([tokenMetadataCache],
    [tokenMetadataCacheTime]) together with the calls that are waiting, each
    with its number and the reading it took on entry, in order of entry. *)
Record MetadataStore : Type := mkStore {
  cache : MetadataCache;
  inFlight : list (nat * Z)
}.

Definition initialStore : MetadataStore := {| cache := initialCache; inFlight := [] |}.

(** What one segment of a call lets its surroundings see: the metadata it
    returns to its caller, if the call ends there, and the upstream requests
    it issues, in order. *)
Record observation : Type := mkObservation {
  returned : option TokenMetadata;
  issued : list request
}.

Fixpoint startOf (call : nat) (flights : list (nat * Z)) : option Z :=
  match flights with
  | [] => None
  | (c, now) :: rest => if (c =? call)%nat then Some now else startOf call rest
  end.

Fixpoint landed (call : nat) (flights : list (nat * Z)) : list (nat * Z) :=
  match flights with
  | [] => []
  | (c, now) :: rest => if (c =? call)%nat then rest else (c, now) :: landed call rest
  end.

(** Lines 33-43: call number [call] enters when [Date.now()] reads [now].
    On a fresh cache it returns at once; otherwise it posts the metadata
    request and waits, the cache untouched. *)
Definition getTokenMetadataStart (s : MetadataStore) (call : nat) (now : Z)
    : MetadataStore * observation :=
  match cacheHit (cache s) now with
  | Some m => (s, {| returned := Some m; issued := [] |})
  | None =>
      ({| cache := cache s; inFlight := inFlight s ++ [(call, now)] |},
       {| returned := None; issued := [TokenMetadataFetch] |})
  end.

(** Lines 45-119: upstream has answered the waiting call [call] with [up].
    The call issues the RPC request if it needs it, writes the cache with
    the reading it took on entry, and returns.  Between the two upstream
    answers the call touches no module state, so both are taken here. *)
Definition getTokenMetadataResume (s : MetadataStore) (call : nat) (up : Upstream)
    : MetadataStore * observation :=
  match startOf call (inFlight s) with
  | None => (s, {| returned := None; issued := [] |})
  | Some now =>
      let '(m, c, reqs) := refreshMetadata now up in
      ({| cache := c; inFlight := landed call (inFlight s) |},
       {| returned := Some m; issued := tl reqs |})
  end.

(** What happens to the module, in the order it happens: a caller invokes
    [getTokenMetadata()], or the upstream answers of a waiting call are in. *)
Inductive metadataEvent : Type :=
| Called (call : nat) (now : Z)
| Settled (call : nat) (up : Upstream).

Definition metadataStep (s : MetadataStore) (e : metadataEvent)
    : MetadataStore * observation :=
  match e with
  | Called call now => getTokenMetadataStart s call now
  | Settled call up => getTokenMetadataResume s call up
  end.

Fixpoint metadataRun (s : MetadataStore) (history : list metadataEvent)
    : MetadataStore * list observation :=
  match history with
  | [] => (s, [])
  | e :: rest =>
      let '(s1, o) := metadataStep s e in
      let '(s2, os) := metadataRun s1 rest in
      (s2, o :: os)
  end.

(** *** Recent transactions, on-chain fallback (lines 772-825) *)

(** [Array.prototype.sort] with the comparator
    [(a, b) => b.timestamp - a.timestamp]: a stable sort, newest first.
    [insertNewest] puts a record before the first one that is not newer than
    it, so records of equal timestamp keep their order. *)
Fixpoint insertNewest (tx : EnhancedTokenTransaction) (sorted : list EnhancedTokenTransaction)
    : list EnhancedTokenTransaction :=
  match sorted with
  | [] => [tx]
  | y :: rest =>
      if (timestamp y <=? timestamp tx)%Z then tx :: y :: rest
      else y :: insertNewest tx rest
  end.

Definition sortNewestFirst (l : list EnhancedTokenTransaction) : list EnhancedTokenTransaction :=
  fold_right insertNewest [] l.

(** An entry of [getSignaturesForAddress]. *)
Record SignatureInfo : Type := {
  si_signature : string;
  si_blockTime : option Z
}.

(** An entry of [meta.postTokenBalances]. *)
Record TokenBalance : Type := {
  tb_mint : string;
  tb_uiAmount : option Q       (* [uiTokenAmount?.uiAmount] *)
}.

(** [tx.meta] of a parsed transaction. *)
Record ParsedMeta : Type := {
  pm_err : bool;               (* [meta.err] is truthy *)
  pm_fee : Q;
  pm_postTokenBalances : option (list TokenBalance)
}.

(** What [getParsedTransaction] resolves to, when not [null]:
    [pt_accountKeys] are the base-58 keys of [transaction.message.accountKeys]. *)
Record ParsedTransaction : Type := {
  pt_meta : option ParsedMeta;
  pt_accountKeys : list string
}.

(** [blockTime || 0] *)
Definition orTime (t : option Z) : Z :=
  match t with
  | Some v => v
  | None => 0%Z
  end.

(** The body of the [for] loop (lines 785-815) for one signature: the record
    pushed, or nothing when the transaction is skipped ([continue]) or
    reading it throws. *)
Definition fallbackRecord (sig : SignatureInfo)
    (fetched : outcome (option ParsedTransaction)) : option EnhancedTokenTransaction :=
  match fetched with
  | Rejected _ => None
  | Resolved None => None
  | Resolved (Some tx) =>
      match pt_meta tx with
      | None => None
      | Some meta =>
          if pm_err meta then None
          else
            let tokenTransfers :=
              match pm_postTokenBalances meta with
              | Some balances =>
                  map (fun tb => {| tt_fromUserAccount := None; tt_toUserAccount := None;
                                    tt_mint := tb_mint tb;
                                    tt_tokenAmount := orNumber (tb_uiAmount tb) 0%Q |})
                      (List.filter (fun balance => String.eqb (tb_mint balance) JPG_TOKEN_MINT)
                                   balances)
              | None => []
              end in
            match pt_accountKeys tx with
            | [] => None           (* [accountKeys[0].pubkey] throws *)
            | key :: _ =>
                Some {| signature := si_signature sig;
                        timestamp := (orTime (si_blockTime sig) * 1000)%Z;
                        fee := pm_fee meta;
                        feePayer := key;
                        description := None;
                        type := Some "TRANSFER";
                        source := Some "On-chain Fallback";
                        tokenTransfers := tokenTransfers;
                        nativeTransfers := [] |}
            end
      end
  end.

(** [signatures]: what [connection.getSignaturesForAddress] settles to;
    [getParsedTransaction s]: what [connection.getParsedTransaction(s)]
    settles to. *)
Definition getRecentTransactions
    (signatures : outcome (list SignatureInfo))
    (getParsedTransaction : string -> outcome (option ParsedTransaction))
    : outcome (list EnhancedTokenTransaction) :=
  match signatures with
  | Rejected _ =>
      Rejected (Error "Failed to fetch real transaction data from Solana blockchain")
  | Resolved sigs =>
      let transactions :=
        dropNull (map (fun sig => fallbackRecord sig (getParsedTransaction (si_signature sig)))
                      (firstn 10 sigs)) in
      Resolved (sortNewestFirst transactions)
  end.

(** *** Recent transactions, enhanced (lines 710-769) *)


(** *** Reward metrics (lines 1077-1140) *)

(** A truthy optional string: present and not empty. *)
Definition isTruthy (s : option string) : bool :=
  match s with
  | Some EmptyString | None => false
  | Some _ => true
  end.

(** [Math.ceil(currentTime / (60 * 60 * 1000)) * (60 * 60 * 1000)] on an
    integer clock reading. *)
Definition nextHour (currentTime : Z) : Z :=
  (- ((- currentTime) / (60 * 60 * 1000)) * (60 * 60 * 1000))%Z.

(** One iteration of the loop of lines 1086-1121 on the running
    [totalRewardPool].  [swapEvent tx] stands for [tx.events?.swap] being
    there: the events are the one member of a record this function reads
    that [EnhancedTokenTransaction] above does not carry. *)
Definition addReward (swapEvent : EnhancedTokenTransaction -> bool)
    (totalRewardPool : Q) (tx : EnhancedTokenTransaction) : Q :=
  if match type tx with Some t => String.eqb t "SWAP" | None => false end && swapEvent tx then
    match find isJpgTransfer (tokenTransfers tx),
          find (fun t => negb (isJpgTransfer t)) (tokenTransfers tx) with
    | Some jpgTransfer, Some otherTokenTransfer =>
        let jpgAmount := Qabs (tt_tokenAmount jpgTransfer) in
        let otherAmount := Qabs (tt_tokenAmount otherTokenTransfer) in
        let inputAmount :=
          if isTruthy (tt_toUserAccount jpgTransfer) then jpgAmount else otherAmount in
        (totalRewardPool + inputAmount * (3 # 1000))%Q
    | _, _ => totalRewardPool
    end
  else if match type tx with Some t => String.eqb t "TRANSFER" | None => false end then
    match tokenTransfers tx with
    | transfer :: _ =>
        if isJpgTransfer transfer
        then (totalRewardPool + Qabs (tt_tokenAmount transfer) * (1 # 1000))%Q
        else totalRewardPool
    | [] => totalRewardPool
    end
  else totalRewardPool.

(** [recentTransactions]: what [getRecentTransactions()] settles to;
    [currentTime]: the reading of [Date.now()]. *)
Definition getRewardMetrics
    (recentTransactions : outcome (list EnhancedTokenTransaction))
    (swapEvent : EnhancedTokenTransaction -> bool) (currentTime : Z)
    : outcome RewardMetrics :=
  match recentTransactions with
  | Rejected _ =>
      Rejected (Error "Failed to fetch real reward metrics from Solana blockchain")
  | Resolved txs =>
      Resolved {| totalRewardPool := fold_left (addReward swapEvent) txs 0%Q;
                  distributionPercentage := 50%Q;
                  rm_totalTransactions := length txs;
                  nextDistributionTime := nextHour currentTime |}
  end.

(** *** Predicates on results *)

(** A record as [parseData] builds it: signature there, optional members
    defaulted to a non-empty text. *)
Definition wellFormed (tx : EnhancedTokenTransaction) : Prop :=
  signature tx <> ""
  /\ (exists t, type tx = Some t /\ t <> "")
  /\ (exists s, source tx = Some s /\ s <> "")
  /\ description tx <> None.

(** Timestamps never increase along the list. *)
Definition newestFirst (l : list EnhancedTokenTransaction) : Prop :=
  StronglySorted (fun a b => (timestamp b <= timestamp a)%Z) l.

(** A record as the on-chain fallback builds it. *)
Definition fallbackShaped (tx : EnhancedTokenTransaction) : Prop :=
  type tx = Some "TRANSFER"
  /\ description tx = None
  /\ nativeTransfers tx = []
  /\ Forall (fun t => tt_mint t = JPG_TOKEN_MINT) (tokenTransfers tx).

(** Metadata none of whose displayed members is empty. *)
Definition filledIn (m : TokenMetadata) : Prop :=
  md_name m <> "" /\ md_symbol m <> "" /\ md_decimals m <> 0%Z
  /\ md_description m <> "".

End Client.

(* ===================================================================== *)
(** ** Polling store (the data provider component, [DataProvider]) *)
(* ===================================================================== *)

Module Store.

(** The seven [useState] cells. *)
Record State : Type := mkState {
  metrics : option RewardMetrics;
  supply : option TokenSupply;
  holders : list TopHolder;
  transactions : list EnhancedTokenTransaction;
  tokenMetadata : option TokenMetadata;
  loading : bool;
  error : option Thrown
}.

Definition initialState : State :=
  {| metrics := None; supply := None; holders := []; transactions := [];
     tokenMetadata := None; loading := true; error := None |}.

(** *** The merge: the updater passed to [setTransactions] (lines 94-125) *)

(** First [.filter] (lines 104-106): some token or native transfer. *)
Definition hasTransfers (tx : EnhancedTokenTransaction) : bool :=
  (0 <? length (tokenTransfers tx)) || (0 <? length (nativeTransfers tx)).

(** Second [.filter] (lines 109-115):
    [tx.type !== "UNKNOWN" && tx.type && tx.description &&
     tx.description.trim() !== ""]. *)
Definition isDescribed (tx : EnhancedTokenTransaction) : bool :=
  match type tx with
  | Some t => negb (String.eqb t "UNKNOWN") && negb (String.eqb t "")
  | None => false
  end
  &&
  match description tx with
  | Some d => negb (String.eqb d "") && negb (String.eqb (trim d) "")
  | None => false
  end.

(** [txs]: the poll result; [prev]: the window held.  The records of the
    poll that pass the signature test of line 98 and both filters. *)
Definition validNewTransactions (txs prev : list EnhancedTokenTransaction)
    : list EnhancedTokenTransaction :=
  let existingSignatures : gset string := list_to_set (map signature prev) in
  let newTransactions :=
    List.filter (fun tx => negb (bool_decide (signature tx ∈ existingSignatures))) txs in
  List.filter isDescribed (List.filter hasTransfers newTransactions).

Definition mergeTransactions (txs prev : list EnhancedTokenTransaction)
    : list EnhancedTokenTransaction :=
  let validNewTransactions := validNewTransactions txs prev in
  if length validNewTransactions =? 0 then prev
  else
    let updated := validNewTransactions ++ prev in
    firstn 50 updated.

(** Windows the store can hold: the initial empty one, and any merge of a
    poll into one of them. *)
Inductive Window : list EnhancedTokenTransaction -> Prop :=
| WindowInitial : Window []
| WindowMerge (txs prev : list EnhancedTokenTransaction) :
    Window prev -> Window (mergeTransactions txs prev).

(** The same, when every poll lists each signature once. *)
Inductive CleanWindow : list EnhancedTokenTransaction -> Prop :=
| CleanInitial : CleanWindow []
| CleanMerge (txs prev : list EnhancedTokenTransaction) :
    NoDup (map signature txs) ->
    CleanWindow prev -> CleanWindow (mergeTransactions txs prev).

(** [a] is an initial segment of [b]. *)
Definition isPrefixOf {A} (a b : list A) : Prop := exists rest, b = a ++ rest.

(** *** The component at run time *)

(** The state setters, as called. *)
Inductive setter : Type :=
| SetMetrics | SetSupply | SetHolders | SetTokenMetadata
| SetTransactions | SetLoading | SetError.

Record Component : Type := mkComponent {
  state : State;
  isMounted : bool;                 (* the flag of the polling effect *)
  pollingTimer : bool;              (* [pollingRef.current] interval is live *)
  staticTimer : bool;               (* [staticDataInterval] is live *)
  lastSignature : option string;
  pendingTx : list bool;            (* in-flight polls, by their [isInitial] *)
  pendingStatic : nat;              (* in-flight static refreshes *)
  calls : list setter               (* every setter call so far, in order *)
}.

Definition withState (c : Component) (s : State) (called : list setter) : Component :=
  {| state := s; isMounted := isMounted c; pollingTimer := pollingTimer c;
     staticTimer := staticTimer c; lastSignature := lastSignature c;
     pendingTx := pendingTx c; pendingStatic := pendingStatic c;
     calls := calls c ++ called |}.

Definition setMetrics (v : option RewardMetrics) (c : Component) : Component :=
  withState c {| metrics := v; supply := supply (state c); holders := holders (state c);
                 transactions := transactions (state c);
                 tokenMetadata := tokenMetadata (state c);
                 loading := loading (state c); error := error (state c) |} [SetMetrics].

Definition setSupply (v : option TokenSupply) (c : Component) : Component :=
  withState c {| metrics := metrics (state c); supply := v; holders := holders (state c);
                 transactions := transactions (state c);
                 tokenMetadata := tokenMetadata (state c);
                 loading := loading (state c); error := error (state c) |} [SetSupply].

Definition setHolders (v : list TopHolder) (c : Component) : Component :=
  withState c {| metrics := metrics (state c); supply := supply (state c); holders := v;
                 transactions := transactions (state c);
                 tokenMetadata := tokenMetadata (state c);
                 loading := loading (state c); error := error (state c) |} [SetHolders].

Definition setTokenMetadata (v : option TokenMetadata) (c : Component) : Component :=
  withState c {| metrics := metrics (state c); supply := supply (state c);
                 holders := holders (state c);
                 transactions := transactions (state c); tokenMetadata := v;
                 loading := loading (state c); error := error (state c) |} [SetTokenMetadata].

Definition setTransactions
    (updater : list EnhancedTokenTransaction -> list EnhancedTokenTransaction)
    (c : Component) : Component :=
  withState c {| metrics := metrics (state c); supply := supply (state c);
                 holders := holders (state c);
                 transactions := updater (transactions (state c));
                 tokenMetadata := tokenMetadata (state c);
                 loading := loading (state c); error := error (state c) |} [SetTransactions].

Definition setLoading (v : bool) (c : Component) : Component :=
  withState c {| metrics := metrics (state c); supply := supply (state c);
                 holders := holders (state c);
                 transactions := transactions (state c);
                 tokenMetadata := tokenMetadata (state c);
                 loading := v; error := error (state c) |} [SetLoading].

Definition setError (v : option Thrown) (c : Component) : Component :=
  withState c {| metrics := metrics (state c); supply := supply (state c);
                 holders := holders (state c);
                 transactions := transactions (state c);
                 tokenMetadata := tokenMetadata (state c);
                 loading := loading (state c); error := v |} [SetError].

(** [e instanceof Error ? e : new Error(msg)] *)
Definition asError (e : Thrown) (msg : string) : Thrown :=
  if isError e then e else Error msg.

Definition StaticData : Type :=
  (RewardMetrics * TokenSupply * list TopHolder * TokenMetadata)%type.

(** [fetchStaticData] up to its [await Promise.all] (lines 52-55). *)
Definition fetchStaticDataStart (c : Component) : Component :=
  let c := setError None c in
  {| state := state c; isMounted := isMounted c; pollingTimer := pollingTimer c;
     staticTimer := staticTimer c; lastSignature := lastSignature c;
     pendingTx := pendingTx c; pendingStatic := S (pendingStatic c);
     calls := calls c |}.

(** [fetchStaticData] from the point [Promise.all] settles to [result]
    (lines 61-72). *)
Definition fetchStaticDataResume (result : outcome StaticData) (c : Component) : Component :=
  match result with
  | Resolved (metricsData, supplyData, holdersData, metadataData) =>
      let c := setMetrics (Some metricsData) c in
      let c := setSupply (Some supplyData) c in
      let c := setHolders holdersData c in
      let c := setTokenMetadata (Some metadataData) c in
      setLoading false c
  | Rejected e =>
      let c := setError (Some (asError e "Failed to fetch static data.")) c in
      setLoading false c
  end.

(** One whole static refresh cycle that nothing interleaves with. *)
Definition fetchStaticData (result : outcome StaticData) (c : Component) : Component :=
  fetchStaticDataResume result (fetchStaticDataStart c).

(** [fetchTransactions(isInitial)] up to its [await] (lines 82-90). *)
Definition fetchTransactionsStart (isInitial : bool) (c : Component) : Component :=
  let c := if isInitial then setLoading true c else c in
  let c := setError None c in
  {| state := state c; isMounted := isMounted c; pollingTimer := pollingTimer c;
     staticTimer := staticTimer c; lastSignature := lastSignature c;
     pendingTx := pendingTx c ++ [isInitial]; pendingStatic := pendingStatic c;
     calls := calls c |}.

(** [fetchTransactions(isInitial)] from the point the query settles to
    [result] (lines 92-143). *)
Definition fetchTransactionsResume (isInitial : bool)
    (result : outcome (list EnhancedTokenTransaction)) (c : Component) : Component :=
  if negb (isMounted c) then c
  else
    match result with
    | Resolved txs =>
        let c := setTransactions (mergeTransactions txs) c in
        let c :=
          match txs with
          | tx :: _ =>
              {| state := state c; isMounted := isMounted c;
                 pollingTimer := pollingTimer c; staticTimer := staticTimer c;
                 lastSignature := Some (signature tx);
                 pendingTx := pendingTx c; pendingStatic := pendingStatic c;
                 calls := calls c |}
          | [] => c
          end in
        if isInitial then setLoading false c else c
    | Rejected e =>
        let c := setError (Some (asError e "Failed to fetch transactions.")) c in
        if isInitial then setLoading false c else c
    end.

(** The two effects having run on mount: the initial poll and the first
    static refresh are in flight, both intervals are set. *)
Definition mounted : Component :=
  let c := {| state := initialState; isMounted := true; pollingTimer := false;
              staticTimer := false; lastSignature := None; pendingTx := [];
              pendingStatic := 0; calls := [] |} in
  let c := fetchTransactionsStart true c in
  let c := {| state := state c; isMounted := isMounted c; pollingTimer := true;
              staticTimer := staticTimer c; lastSignature := lastSignature c;
              pendingTx := pendingTx c; pendingStatic := pendingStatic c;
              calls := calls c |} in
  let c := fetchStaticDataStart c in
  {| state := state c; isMounted := isMounted c; pollingTimer := pollingTimer c;
     staticTimer := true; lastSignature := lastSignature c;
     pendingTx := pendingTx c; pendingStatic := pendingStatic c;
     calls := calls c |}.

(** The two effect clean-ups (lines 152-155 and 162). *)
Definition unmount (c : Component) : Component :=
  {| state := state c; isMounted := false; pollingTimer := false;
     staticTimer := false; lastSignature := lastSignature c;
     pendingTx := pendingTx c; pendingStatic := pendingStatic c;
     calls := calls c |}.

(** What the event loop can deliver to the component. *)
Inductive event : Type :=
| PollTick                                               (* the 6 s interval fires *)
| StaticTick                                             (* the 5 min interval fires *)
| TransactionsSettled (isInitial : bool)
    (result : outcome (list EnhancedTokenTransaction))   (* an in-flight poll settles *)
| StaticSettled (result : outcome StaticData)            (* an in-flight refresh settles *)
| Unmount.

Fixpoint removeFirst (b : bool) (l : list bool) : list bool :=
  match l with
  | [] => []
  | x :: l' => if Bool.eqb x b then l' else x :: removeFirst b l'
  end.

(** A cleared interval does not fire, and only a request that is in flight
    can settle. *)
Definition step (c : Component) (e : event) : Component :=
  match e with
  | PollTick => if pollingTimer c then fetchTransactionsStart false c else c
  | StaticTick => if staticTimer c then fetchStaticDataStart c else c
  | TransactionsSettled isInitial result =>
      if existsb (Bool.eqb isInitial) (pendingTx c) then
        fetchTransactionsResume isInitial result
          {| state := state c; isMounted := isMounted c;
             pollingTimer := pollingTimer c; staticTimer := staticTimer c;
             lastSignature := lastSignature c;
             pendingTx := removeFirst isInitial (pendingTx c);
             pendingStatic := pendingStatic c; calls := calls c |}
      else c
  | StaticSettled result =>
      match pendingStatic c with
      | S n =>
          fetchStaticDataResume result
            {| state := state c; isMounted := isMounted c;
               pollingTimer := pollingTimer c; staticTimer := staticTimer c;
               lastSignature := lastSignature c; pendingTx := pendingTx c;
               pendingStatic := n; calls := calls c |}
      | O => c
      end
  | Unmount => unmount c
  end.

Definition run (c : Component) (es : list event) : Component := fold_left step es c.

End Store.

(* ===================================================================== *)
(** ** Presentation logic over the store
       (transaction feed and reward card components) *)
(* ===================================================================== *)

Module Display.

(** *** Transaction feed *)

(** [!tx.tokenTransfers?.length && !tx.nativeTransfers?.length] *)
Definition noTransfers (tx : EnhancedTokenTransaction) : bool :=
  (length (tokenTransfers tx) =? 0) && (length (nativeTransfers tx) =? 0).

(** [tx.type === "UNKNOWN" || !tx.type] *)
Definition unknownType (tx : EnhancedTokenTransaction) : bool :=
  match type tx with
  | Some t => String.eqb t "UNKNOWN" || String.eqb t ""
  | None => true
  end.

(** [!tx.description || tx.description.trim() === ""] *)
Definition noDescription (tx : EnhancedTokenTransaction) : bool :=
  match description tx with
  | Some d => String.eqb d "" || String.eqb (trim d) ""
  | None => true
  end.

(** [getTransactionDetails(tx, tokenMetadata) === null].  The function
    returns [null] from its three leading guards only; past them every path
    (swap, transfer, fallback) ends in an object literal. *)
Definition detailsAreNull (tx : EnhancedTokenTransaction) : bool :=
  if noTransfers tx then true
  else if unknownType tx then true
  else if noDescription tx then true
  else false.

(** The callback of [context.transactions.filter] in [TransactionFeed]. *)
Definition isShown (tx : EnhancedTokenTransaction) : bool :=
  if unknownType tx then false
  else if noDescription tx then false
  else if noTransfers tx then false
  else negb (detailsAreNull tx).

(** [validTransactions] of [TransactionFeed]: the rows rendered. *)
Definition validTransactions (transactions : list EnhancedTokenTransaction)
    : list EnhancedTokenTransaction :=
  List.filter isShown transactions.

(** *** Countdown of the reward card *)

(** [n.toString().padStart(2, "0")] *)
Definition pad2 (n : Z) : string :=
  let s := numberToString n in
  if String.length s <? 2 then String.append "0" s else s.

(** The three fields computed from a positive [diff], in milliseconds. *)
Definition countdownFields (diff : Z) : Z * Z * Z :=
  let hours := (diff / (1000 * 60 * 60))%Z in
  let minutes := ((diff mod (1000 * 60 * 60)) / (1000 * 60))%Z in
  let seconds := ((diff mod (1000 * 60)) / 1000)%Z in
  (hours, minutes, seconds).

(** The text the interval callback passes to [setTimeLeft] when [Date.now()]
    reads [now]. *)
Definition timeLeft (nextDistributionTime now : Z) : string :=
  let diff := (nextDistributionTime - now)%Z in
  if (diff <=? 0)%Z then "Distribution in progress..."
  else
    let '(hours, minutes, seconds) := countdownFields diff in
    String.append (pad2 hours)
      (String.append ":" (String.append (pad2 minutes) (String.append ":" (pad2 seconds)))).

End Display.

(* ===================================================================== *)
(** ** Concrete data for the examples *)
(* ===================================================================== *)

Module Samples.
Import Governor Client Store.

Definition walletA : string := "WalletA".

(** A tracked-token transfer of [amount] from [walletA]. *)
Definition jpgTransfer (amount : Q) : TokenTransfer :=
  {| tt_fromUserAccount := Some walletA; tt_toUserAccount := Some "WalletB";
     tt_mint := JPG_TOKEN_MINT; tt_tokenAmount := amount |}.

(** A transaction record as the parse endpoint describes a swap. *)
Definition swapTx (sig : string) : EnhancedTokenTransaction :=
  {| signature := sig; timestamp := 1700000000000; fee := 5000%Q;
     feePayer := walletA; description := Some "WalletA swapped 10 JPG";
     type := Some "SWAP"; source := Some "JUPITER";
     tokenTransfers := [jpgTransfer 10%Q]; nativeTransfers := [] |}.

(** A transaction of [walletA] that moves no tracked token. *)
Definition otherTx (sig : string) : EnhancedTokenTransaction :=
  {| signature := sig; timestamp := 1690000000000; fee := 5000%Q;
     feePayer := walletA; description := Some "WalletA paid a fee";
     type := Some "TRANSFER"; source := Some "SYSTEM_PROGRAM";
     tokenTransfers := []; nativeTransfers := [] |}.

(** The raw entry the parse endpoint returns for [sig]. *)
Definition rawOf (sig : string) : RawTx :=
  {| raw_signature := Some sig; raw_timestamp := 1700000000;
     raw_fee := Some 5000%Q; raw_feePayer := Some walletA;
     raw_description := Some "WalletA swapped 10 JPG";
     raw_type := Some "SWAP"; raw_source := Some "JUPITER";
     raw_tokenTransfers := Some [jpgTransfer 10%Q];
     raw_nativeTransfers := None |}.

Definition okResponse (batch : list string) : Response TxBody :=
  mkResponse 200 "" (TxArray (map (fun sig => Some (rawOf sig)) batch)).

Definition statusResponse (code : Z) : Response TxBody :=
  mkResponse code "" TxNotArray.

Definition sevenSignatures : list string :=
  ["s1"; "s2"; "s3"; "s4"; "s5"; "s6"; "s7"].

(** The upstream answers every attempt of sub-batch [failing] with the HTTP
    status [code] and parses every other sub-batch. *)
Definition failingBatch (failing : nat) (code : Z)
    (b : nat) (batch : list string) (k : nat) : outcome (Response TxBody) :=
  if b =? failing then Resolved (statusResponse code) else Resolved (okResponse batch).


Definition noJitter (b k : nat) : Q := 0%Q.

Definition sampleMetrics : RewardMetrics :=
  {| totalRewardPool := 12%Q; distributionPercentage := 50%Q;
     rm_totalTransactions := 10; nextDistributionTime := 1700003600000 |}.

Definition sampleSupply : TokenSupply :=
  {| totalSupply := 1000000000%Q; circulatingSupply := 1000000000%Q;
     burnedSupply := 0%Q |}.

Definition sampleHolders : list TopHolder :=
  [ {| th_address := walletA; th_amount := 1000%Q; th_percentage := 1%Q |} ].

Definition sampleStatic : StaticData :=
  (sampleMetrics, sampleSupply, sampleHolders, hardcodedFallback).

Definition sampleAccounts : list LargestAccount :=
  [ {| la_address := walletA; la_uiAmount := Some 40%Q |};
    {| la_address := "WalletB"; la_uiAmount := Some 0%Q |};
    {| la_address := "WalletC"; la_uiAmount := None |};
    {| la_address := "WalletD"; la_uiAmount := Some 10%Q |} ].

(** A largest-accounts answer carrying a negative [uiAmount]. *)
Definition overdrawnAccounts : list LargestAccount :=
  [ {| la_address := "WalletN"; la_uiAmount := Some (-2)%Q |} ].

Definition sampleSupplyValue : SupplyValue :=
  {| sv_amount := 100000000%Q; sv_decimals := 6 |}.

Definition sampleTokenAccounts : list RawTokenAccount :=
  [ {| rta_pubkey := "TokenAccount1"; rta_uiAmount := Some 1%Q; rta_owner := walletA |} ].

Definition allFailing : Upstream :=
  {| metadataResponse := Rejected (Error "HTTP error! status: 500");
     tokenInfo := Rejected (Error "HTTP error! status: 500") |}.

(** Upstream answering the metadata request with on-chain data. *)
Definition answering : Upstream :=
  {| metadataResponse :=
       Resolved (mkResponse 200 "OK"
         (MetaJson (Some {| onChainMetadata :=
                              Some (Some {| oc_name := Some "Glitch";
                                            oc_symbol := Some "GLT";
                                            oc_decimals := Some 9%Z;
                                            oc_description := None |});
                            offChainMetadata := None |})));
     tokenInfo := Rejected (Error "HTTP error! status: 500") |}.

(** A mount: two callers enter [getTokenMetadata] before either has its
    answer; the first fails on every upstream request, the second succeeds;
    a third caller enters ten seconds later. *)
Definition overlappingMount : list metadataEvent :=
  [ Called 1 0; Called 2 1; Settled 1 allFailing; Settled 2 answering;
    Called 3 10000 ].

End Samples.

(* ===================================================================== *)
(** ** The JavaScript primitives *)
(* ===================================================================== *)

Section JsFacts.

Lemma append_cons (c : ascii) (p rest : string) :
  String.append (String c p) rest = String c (String.append p rest).
Proof. reflexivity. Qed.

Lemma prefix_spec (p s : string) :
  String.prefix p s = true <-> exists rest, s = String.append p rest.
Proof.
  revert s. induction p as [|c p IH]; intros s; simpl.
  - split; [intros _; exists s; reflexivity | intros _; destruct s; reflexivity].
  - destruct s as [|d s]; [split; [discriminate | intros [rest H]; discriminate]|].
    simpl. destruct (ascii_dec c d) as [E|NE].
    + rewrite IH. subst d.
      split; intros [rest H]; exists rest; rewrite append_cons in *; congruence.
    + split; [discriminate | intros [rest H]; rewrite append_cons in H; congruence].
Qed.

Lemma includes_unfold (hay needle : string) :
  includes hay needle =
  if String.prefix needle hay then true
  else match hay with
       | EmptyString => false
       | String _ rest => includes rest needle
       end.
Proof. destruct hay; reflexivity. Qed.

(** [includes] finds exactly the contiguous occurrences. *)
Lemma includes_spec (hay needle : string) :
  includes hay needle = true
  <-> exists before after, hay = String.append before (String.append needle after).
Proof.
  induction hay as [|c hay IH]; rewrite includes_unfold.
  - destruct (String.prefix needle "") eqn:E.
    + split; [intros _|reflexivity].
      apply prefix_spec in E as [rest H]. exists "", rest. exact H.
    + split; [discriminate|]. intros (before & after & H).
      destruct before; [|discriminate]. change ("" = String.append needle after) in H.
      assert (String.prefix needle "" = true) by (apply prefix_spec; eauto). congruence.
  - destruct (String.prefix needle (String c hay)) eqn:E.
    + split; [intros _|reflexivity].
      apply prefix_spec in E as [rest H]. exists "", rest. exact H.
    + rewrite IH. split.
      * intros (before & after & H). exists (String c before), after.
        rewrite append_cons. congruence.
      * intros (before & after & H). destruct before as [|d before];
          [change (String c hay = String.append needle after) in H
          |rewrite append_cons in H].
        -- assert (String.prefix needle (String c hay) = true) by (apply prefix_spec; eauto).
           congruence.
        -- exists before, after. congruence.
Qed.

Example includes_is_case_sensitive :
  includes "Rate limit exceeded" "rate limit" = false
  /\ includes "Rate limit exceeded" "Rate limit" = true
  /\ includes "HTTP error! status: 500" "429" = false
  /\ includes "anything" "" = true.
Proof. repeat split. Qed.

Example trim_examples :
  trim "  swap 10 JPG  " = "swap 10 JPG" /\ trim "   " = "" /\ trim "" = "".
Proof. repeat split. Qed.

Example numberToString_examples :
  numberToString 500 = "500" /\ numberToString 429 = "429".
Proof. repeat split. Qed.

End JsFacts.

(* ===================================================================== *)
(** ** Properties of the request governor *)
(* ===================================================================== *)

Section GovernorFacts.
Import Governor.

(** *** Retry policy *)

(** The marker test is case sensitive: the message thrown for a 429 status
    carries a capital R and no digits. *)
Lemma rate_limit_exceeded_unmarked :
  isRateLimitError (Error "Rate limit exceeded") = false.
Proof. reflexivity. Qed.

Lemma marked_messages :
  isRateLimitError (Error "RPC Error: rate limit reached") = true
  /\ isRateLimitError (Error "Request failed with status code 429") = true.
Proof. split; reflexivity. Qed.

(** A failure the test classifies as rate limiting waits
    [baseDelay * 2^i] plus a jitter below one second. *)
Lemma classified_wait baseDelay i r e :
  isRateLimitError e = true ->
  (0 <= r)%Q -> (r < 1)%Q ->
  exists jitter : Q,
    (0 <= jitter)%Q /\ (jitter < 1000)%Q
    /\ retryDelay baseDelay i r e = (baseDelay * inject_Z (2 ^ Z.of_nat i) + jitter)%Q.
Proof.
  intros He H0 H1. exists (r * 1000)%Q. unfold retryDelay, rateLimitDelay. rewrite He.
  split; [|split; [|reflexivity]].
  - apply Qmult_le_0_compat; [exact H0 | discriminate].
  - change (r * 1000 < 1 * 1000)%Q.
    apply Qmult_lt_compat_r; [reflexivity | exact H1].
Qed.

(** Any other failure waits the flat [baseDelay]. *)
Lemma unclassified_wait baseDelay i r e :
  isRateLimitError e = false -> retryDelay baseDelay i r e = baseDelay.
Proof. intros He. unfold retryDelay. rewrite He. reflexivity. Qed.

(** One iteration that fails before the last one: the wait chosen for that
    failure, then the rest of the loop. *)
Lemma wait_after_failed_attempt {T} (fn : nat -> outcome T) random maxRetries baseDelay
    (left i : nat) (e : Thrown) :
  fn i = Rejected e -> i <> maxRetries - 1 ->
  snd (retryLoop fn random maxRetries baseDelay (S left) i)
  = Attempt i :: Sleep (retryDelay baseDelay i (random i) e)
      :: snd (retryLoop fn random maxRetries baseDelay left (S i)).
Proof.
  intros Hfn Hi. simpl. rewrite Hfn.
  destruct (Nat.eqb_spec i (maxRetries - 1)); [contradiction | reflexivity].
Qed.

(** No HTTP status makes [fetchWithRetry]'s operation throw an error that the
    marker test classifies as rate limiting. *)
Lemma no_http_status_is_classified {B} (response : Response B) :
  (100 <= status response <= 599)%Z ->
  match fetchOperation (Resolved response) with
  | Rejected e => isRateLimitError e = false
  | Resolved _ => True
  end.
Proof.
  intros Hrange.
  assert (Hall : forallb (fun n =>
            match fetchOperation (Resolved (mkResponse (Z.of_nat n) "" tt)) with
            | Rejected e => negb (isRateLimitError e)
            | Resolved _ => true
            end) (seq 100 500) = true) by (vm_compute; reflexivity).
  rewrite forallb_forall in Hall.
  specialize (Hall (Z.to_nat (status response))).
  rewrite in_seq, Z2Nat.id in Hall by lia.
  assert (Hin : 100 <= Z.to_nat (status response) < 100 + 500) by lia.
  specialize (Hall Hin). unfold fetchOperation, ok in *. simpl in Hall.
  destruct (negb _); [|exact I].
  destruct (status response =? 429)%Z; apply negb_true_iff in Hall; exact Hall.
Qed.

(** The loop on an operation that fails at every invocation. *)
Lemma retryLoop_always_failing {T} (err : nat -> Thrown) random maxRetries baseDelay :
  forall left i,
    0 < left -> i + left = maxRetries ->
    let r := retryLoop (T := T) (fun k => Rejected (err k)) random maxRetries baseDelay left i in
    fst r = Rejected (err (maxRetries - 1)) /\ attempts (snd r) = left.
Proof.
  induction left as [|left IH]; intros i Hpos Hsum; [lia|].
  simpl. destruct (Nat.eqb_spec i (maxRetries - 1)) as [E|NE].
  - simpl. split; [rewrite E; reflexivity|]. f_equal. lia.
  - simpl. destruct (IH (S i)) as [IH1 IH2]; [lia | lia |].
    split; [exact IH1|]. f_equal. exact IH2.
Qed.

(** C2.  An operation that fails at every attempt is invoked exactly
    [maxRetries] times (3 on both governed paths), the retry wrapper rejects
    with the error of the last attempt, and the queue rejects the caller's
    promise with that same error when the call settles. *)
Theorem always_failing_attempted_maxRetries_times
    {T} (err : nat -> Thrown) (random : nat -> Q) (maxRetries : nat) (baseDelay : Q) :
  0 < maxRetries ->
  let r := retryWithBackoff (T := T) (fun k => Rejected (err k)) random maxRetries baseDelay in
  attempts (snd r) = maxRetries
  /\ fst r = Rejected (err (maxRetries - 1))
  /\ forall (run : nat -> outcome T) (q : RequestQueue) (c : nat),
       run c = fst r ->
       existsb (Nat.eqb c) (inflight q) = true ->
       handles (settle run c q) = handles q ++ [(c, Rejected (err (maxRetries - 1)))].
Proof.
  intros Hpos r. subst r. unfold retryWithBackoff.
  destruct (retryLoop_always_failing (T := T) err random maxRetries baseDelay maxRetries 0 Hpos eq_refl)
    as [H1 H2].
  split; [exact H2|]. split; [exact H1|].
  intros run q c Hrun Hin. unfold settle. rewrite Hin, Hrun, H1. reflexivity.
Qed.

Lemma always_failing_attempted_maxRetries_times_witness :
  let err := fun _ : nat => Error "HTTP error! status: 500" in
  let r := retryWithBackoff (T := nat) (fun k => Rejected (err k)) (fun _ => 0%Q)
             governedMaxRetries governedBaseDelay in
  let q := add (V := nat) 7 emptyQueue in
  0 < governedMaxRetries
  /\ attempts (snd r) = 3
  /\ fst r = Rejected (Error "HTTP error! status: 500")
  /\ handles (settle (fun _ => fst r) 7 q)
     = [(7, Rejected (Error "HTTP error! status: 500"))].
Proof.
  intros err r q.
  assert (Hpos : 0 < governedMaxRetries) by (unfold governedMaxRetries; lia).
  pose proof (always_failing_attempted_maxRetries_times (T := nat) err (fun _ => 0%Q)
                governedMaxRetries governedBaseDelay Hpos) as (H1 & H2 & H3).
  split; [exact Hpos|]. split; [exact H1|]. split; [exact H2|].
  apply (H3 (fun _ => fst r) q 7); reflexivity.
Defined.

(** C1 at an HTTP 429 answer.  [fetchWithRetry] turns the status into
    [Error("Rate limit exceeded")]; the retry wrapper does not classify that
    message as rate limiting, and both waits are the flat base delay. *)
Theorem http_429_waits_flat_base_delay
    {B} (txt : string) (b : B) (random : nat -> Q) :
  let transport := fun _ : nat => Resolved (mkResponse 429 txt b) in
  fetchOperation (transport 0) = Rejected (Error "Rate limit exceeded")
  /\ isRateLimitError (Error "Rate limit exceeded") = false
  /\ sleeps (snd (fetchWithRetryCall transport random))
     = [governedBaseDelay; governedBaseDelay]
  /\ fst (fetchWithRetryCall transport random) = Rejected (Error "Rate limit exceeded").
Proof.
  intros transport. repeat split.
Qed.

(** The same on the JSON-RPC path. *)
Lemma rpc_429_waits_flat_base_delay {R} (txt : string) (b : RpcBody R) (random : nat -> Q) :
  sleeps (snd (rpcCallCall (fun _ => Resolved (mkResponse 429 txt b)) random))
  = [governedBaseDelay; governedBaseDelay].
Proof. reflexivity. Qed.

(** *** The queue *)

Section QueueFacts.
Context {V : Type}.
Variable run : nat -> outcome V.
Implicit Types q : @RequestQueue V.

Lemma loopHead_consistent q :
  processing q = true -> (queue q = [] -> inflight q = []) -> consistent (loopHead q).
Proof.
  intros Hp Hi. unfold loopHead, consistent. destruct (queue q) as [|x l]; simpl; auto.
Qed.

Lemma add_consistent q c : consistent q -> consistent (add c q).
Proof.
  unfold consistent, add, process. simpl.
  destruct (pc q) eqn:Epc.
  - intros (Hp & Hq & Hi). rewrite Hp, Hq. simpl. reflexivity.
  - intros Hp. rewrite Hp. simpl. reflexivity.
  - intros (Hp & Hi & Hq). rewrite Hp. simpl.
    split; [reflexivity|]. split; [exact Hi|]. destruct (queue q); discriminate.
Qed.

Lemma settle_consistent q c : consistent q -> consistent (settle run c q).
Proof.
  unfold settle. destruct (existsb (Nat.eqb c) (inflight q)) eqn:Ein; [|auto].
  unfold consistent. simpl. destruct (pc q).
  - intros (_ & _ & Hi). rewrite Hi in Ein. discriminate.
  - auto.
  - intros (_ & Hi & _). rewrite Hi in Ein. discriminate.
Qed.

Lemma batchSettled_consistent q : consistent q -> consistent (batchSettled q).
Proof.
  intros H. unfold batchSettled.
  destruct (pc q) eqn:Epc; [exact H | | exact H].
  destruct (inflight q) eqn:Ei; [|exact H].
  unfold consistent in H. rewrite Epc in H.
  destruct (queue q) as [|x l] eqn:Eq.
  - apply loopHead_consistent; [exact H | intros _; exact Ei].
  - unfold consistent. simpl. split; [exact H|]. split; [reflexivity | discriminate].
Qed.

Lemma delayElapsed_consistent q : consistent q -> consistent (delayElapsed q).
Proof.
  intros H. unfold delayElapsed. destruct (pc q) eqn:Epc; [exact H | exact H |].
  unfold consistent in H. rewrite Epc in H. destruct H as (Hp & Hi & Hq).
  apply loopHead_consistent; [exact Hp | intros; exact Hi].
Qed.

Lemma step_consistent q a : consistent q -> consistent (step run q a).
Proof.
  destruct a; simpl;
    [apply add_consistent | apply settle_consistent
    | apply batchSettled_consistent | apply delayElapsed_consistent].
Qed.

Lemma fold_step_consistent (h : list action) q :
  consistent q -> consistent (fold_left (step run) h q).
Proof.
  revert q. induction h as [|a h IH]; intros q Hq; simpl; [exact Hq|].
  apply IH, step_consistent, Hq.
Qed.

Lemma after_consistent (h : list action) : consistent (after run h).
Proof. apply fold_step_consistent. unfold consistent. simpl. auto. Qed.

(** An idle queue is empty. *)
Lemma idle_queue_empty q : consistent q -> processing q = false -> queue q = [].
Proof.
  unfold consistent. destruct (pc q); intros H Hp; [tauto | congruence |].
  destruct H as [H _]; congruence.
Qed.

(** C4 (amended).  [add] appends the operation to the queue and only the
    drain loop invokes operations; when a drain is running, the operation
    waits in the queue and nothing is invoked during [add]; when none is
    running, [add] itself enters the drain loop, which takes the operation
    off the queue and invokes it before [add] returns. *)
Theorem add_starts_operation_only_when_idle (h : list action) (c : nat) :
  let q := after run h in
  started (add c q) = (if processing q then started q else started q ++ [c])
  /\ queue (add c q) = (if processing q then queue q ++ [c] else [])
  /\ inflight (add c q) = (if processing q then inflight q else [c])
  /\ processing (add c q) = true.
Proof.
  intros q. pose proof (after_consistent h) as Hc. fold q in Hc.
  destruct (processing q) eqn:Hp.
  - unfold add, process. simpl. rewrite Hp. simpl. auto.
  - pose proof (idle_queue_empty q Hc Hp) as Hq.
    assert (Hi : inflight q = []).
    { unfold consistent in Hc. destruct (pc q); [tauto | congruence |].
      destruct Hc as [Hc _]; congruence. }
    unfold add, process. simpl. rewrite Hp, Hq. simpl. auto.
Qed.

End QueueFacts.

(** C4 (as stated) fails: on a fresh queue the operation is invoked during
    the [add] call itself. *)
Lemma add_on_idle_queue_starts_operation :
  started (add (V := nat) 7 emptyQueue) = [7]
  /\ started (emptyQueue (V := nat)) = []
  /\ queue (add (V := nat) 7 emptyQueue) = [].
Proof. repeat split. Qed.

End GovernorFacts.

(* ===================================================================== *)
(** ** Properties of the upstream client *)
(* ===================================================================== *)

Section ClientFacts.
Import Governor Client.

(** *** Batch parsing *)

(** A sub-batch whose first [fetch] answers 2xx is not retried. *)
Lemma fetchWithRetry_first_ok {B} (transport : nat -> outcome (Response B)) random response :
  transport 0 = Resolved response -> ok response = true ->
  fst (fetchWithRetryCall transport random) = Resolved response.
Proof.
  intros Ht Hok. unfold fetchWithRetryCall, retryWithBackoff. simpl.
  rewrite Ht. simpl. rewrite Hok. reflexivity.
Qed.

(** Seven signatures, third sub-batch answered 500 at every attempt: the
    six records of the first two sub-batches are returned. *)
Lemma parse_keeps_first_two_batches :
  map signature
    (parseTransactionsWithHelius (Samples.failingBatch 2 500) Samples.noJitter
       Samples.sevenSignatures)
  = ["s1"; "s2"; "s3"; "s4"; "s5"; "s6"].
Proof. vm_compute. reflexivity. Qed.

(** An error whose message carries the lower-case marker stops the loop:
    nothing is posted after it and what was accumulated is returned. *)
Lemma parse_stops_on_marked_error :
  let transport := fun (b : nat) (batch : list string) (k : nat) =>
    if b =? 1 then Rejected (Error "upstream rate limit hit")
    else Resolved (Samples.okResponse batch) in
  parseTransactionsWithHeliusTrace transport Samples.noJitter Samples.sevenSignatures
  = (map (fun s => normalize (Samples.rawOf s)) ["s1"; "s2"; "s3"], [0; 1]).
Proof. vm_compute. reflexivity. Qed.

(** C7 at a rate-limited sub-batch.  Seven signatures, first sub-batch
    answered 429 at every attempt: the error reaching the [catch] is
    [Error("Rate limit exceeded")], the marker test fails on it, and the loop
    goes on to post the second and third sub-batches and returns their four
    records. *)
Theorem parse_continues_after_http_429 (random : nat -> nat -> Q) :
  let transport := Samples.failingBatch 0 429 in
  fst (fetchWithRetryCall (transport 0 ["s1"; "s2"; "s3"]) (random 0))
    = Rejected (Error "Rate limit exceeded")
  /\ stopsOn (Error "Rate limit exceeded") = false
  /\ snd (parseTransactionsWithHeliusTrace transport random Samples.sevenSignatures)
     = [0; 1; 2]
  /\ map signature (parseTransactionsWithHelius transport random Samples.sevenSignatures)
     = ["s4"; "s5"; "s6"; "s7"].
Proof. intros transport. repeat split. Qed.

(** *** Top holders *)

Lemma dropNull_length {A} (l : list (option A)) : length (dropNull l) <= length l.
Proof. induction l as [|[x|] l IH]; simpl; lia. Qed.

Lemma dropNull_In {A} (l : list (option A)) (x : A) : In x (dropNull l) <-> In (Some x) l.
Proof.
  induction l as [|[y|] l IH]; simpl; [tauto | |].
  - rewrite IH. split; intros [H|H]; auto; left; congruence.
  - rewrite IH. split; [auto | intros [H|H]; [discriminate | exact H]].
Qed.

(** What [toHolder] keeps: an account with a present, non-zero [uiAmount],
    carried over with its percentage of the supply. *)
Lemma toHolder_Some total account h :
  toHolder total account = Some h ->
  la_uiAmount account = Some (th_amount h)
  /\ ~ (th_amount h == 0)%Q
  /\ th_address h = la_address account
  /\ th_percentage h = ((th_amount h / total) * 100)%Q.
Proof.
  unfold toHolder. destruct (la_uiAmount account) as [amount|]; [|discriminate].
  destruct (Qeq_bool amount 0) eqn:Ez; [discriminate|].
  intros H. injection H as <-. simpl.
  split; [reflexivity|]. split; [apply Qeq_bool_neq, Ez|]. split; reflexivity.
Qed.

(** The holders built from a list of accounts are, one for one and in
    order, the accounts with a present, non-zero [uiAmount]. *)
Lemma toHolder_kept total (accounts : list LargestAccount) :
  Forall2 (fun account h =>
             th_address h = la_address account
             /\ la_uiAmount account = Some (th_amount h)
             /\ th_percentage h = ((th_amount h / total) * 100)%Q)
          (List.filter (fun account => match la_uiAmount account with
                                       | Some amount => negb (Qeq_bool amount 0)
                                       | None => false
                                       end) accounts)
          (dropNull (map (toHolder total) accounts)).
Proof.
  induction accounts as [|account accounts IH]; simpl; [constructor|].
  unfold toHolder at 1.
  destruct (la_uiAmount account) as [amount|] eqn:Eamount; [|exact IH].
  destruct (Qeq_bool amount 0); simpl; [exact IH|].
  constructor; [|exact IH]. simpl. auto.
Qed.

(** C10.  [getTopHolders] returns at most 25 holders and none has a zero
    amount.  The holders are, one for one and in order, those of the first
    25 largest accounts whose [uiAmount] is neither null nor zero, each with
    the address and the amount of its account (a negative amount included);
    every percentage is the amount divided by the supply in whole tokens,
    times 100; when either upstream call fails there is no holder.  Where
    upstream reports no negative amount, every amount is strictly
    positive. *)
Theorem top_holders_bounded_nonzero
    (largestAccounts : outcome (list LargestAccount)) (supplyResult : outcome SupplyValue) :
  let holders := getTopHolders largestAccounts supplyResult in
  length holders <= 25
  /\ (forall h, In h holders -> ~ (th_amount h == 0)%Q)
  /\ (forall h sv, In h holders -> supplyResult = Resolved sv ->
        th_percentage h = ((th_amount h / inTokens sv) * 100)%Q)
  /\ match largestAccounts, supplyResult with
     | Resolved accounts, Resolved sv =>
         Forall2 (fun account h =>
                    th_address h = la_address account
                    /\ la_uiAmount account = Some (th_amount h)
                    /\ th_percentage h = ((th_amount h / inTokens sv) * 100)%Q)
                 (List.filter (fun account => match la_uiAmount account with
                                              | Some amount => negb (Qeq_bool amount 0)
                                              | None => false
                                              end) (firstn 25 accounts))
                 holders
     | _, _ => holders = []
     end
  /\ ((forall accounts account amount,
         largestAccounts = Resolved accounts -> In account accounts ->
         la_uiAmount account = Some amount -> (0 <= amount)%Q) ->
      forall h, In h holders -> (0 < th_amount h)%Q).
Proof.
  intros holders. subst holders. unfold getTopHolders.
  destruct largestAccounts as [accounts|e];
    [|simpl; split; [lia | repeat split; intros; contradiction]].
  destruct supplyResult as [sv|e];
    [|simpl; split; [lia | repeat split; intros; contradiction]].
  assert (Hchar : forall h,
             In h (dropNull (map (toHolder (inTokens sv)) (firstn 25 accounts))) ->
             exists account, In account accounts /\ toHolder (inTokens sv) account = Some h).
  { intros h Hin. apply dropNull_In, in_map_iff in Hin as (account & Hto & Hin).
    exists account. split; [|exact Hto].
    rewrite <- (firstn_skipn 25 accounts). apply in_or_app. left. exact Hin. }
  split; [|split; [|split; [|split]]].
  - eapply Nat.le_trans; [apply dropNull_length|].
    rewrite length_map, length_take. lia.
  - intros h Hin. destruct (Hchar h Hin) as (account & _ & Hto).
    apply toHolder_Some in Hto. tauto.
  - intros h sv' Hin Hsv. injection Hsv as <-.
    destruct (Hchar h Hin) as (account & _ & Hto).
    apply toHolder_Some in Hto. tauto.
  - apply toHolder_kept.
  - intros Hnonneg h Hin. destruct (Hchar h Hin) as (account & Hacc & Hto).
    apply toHolder_Some in Hto as (Hamt & Hnz & _).
    pose proof (Hnonneg accounts account (th_amount h) eq_refl Hacc Hamt) as Hge.
    apply Qle_lteq in Hge as [Hlt|Heq]; [exact Hlt|].
    exfalso. apply Hnz. symmetry. exact Heq.
Qed.

Lemma top_holders_bounded_nonzero_witness :
  let holders := getTopHolders (Resolved Samples.sampleAccounts)
                               (Resolved Samples.sampleSupplyValue) in
  map th_address holders = [Samples.walletA; "WalletD"]
  /\ length holders <= 25
  /\ (forall h, In h holders -> (0 < th_amount h)%Q).
Proof.
  intros holders. split; [reflexivity|].
  assert (Hnonneg : forall accounts account amount,
             Resolved Samples.sampleAccounts = Resolved accounts -> In account accounts ->
             la_uiAmount account = Some amount -> (0 <= amount)%Q).
  { intros accounts account amount Heq Hin Hamt. injection Heq as <-.
    simpl in Hin. destruct Hin as [<-|[<-|[<-|[<-|[]]]]]; simpl in Hamt;
      try discriminate; injection Hamt as <-; discriminate. }
  pose proof (top_holders_bounded_nonzero (Resolved Samples.sampleAccounts)
                (Resolved Samples.sampleSupplyValue)) as (H1 & _ & _ & _ & H5).
  split; [exact H1 | exact (H5 Hnonneg)].
Defined.

(** An account that upstream reports with a negative [uiAmount] passes the
    test of line 847 (it is neither null nor zero) and is returned as a
    holder with that negative amount. *)
Lemma negative_amount_is_returned :
  let holders := getTopHolders (Resolved Samples.overdrawnAccounts)
                               (Resolved Samples.sampleSupplyValue) in
  map th_address holders = ["WalletN"]
  /\ map th_amount holders = [(-2)%Q]
  /\ exists h, In h holders /\ ~ (0 < th_amount h)%Q.
Proof.
  simpl. split; [reflexivity|]. split; [reflexivity|].
  eexists. split; [left; reflexivity|]. simpl. discriminate.
Qed.

End ClientFacts.

Section WalletFacts.
Import Governor Client.

(** A transaction without tracked-token transfers adds nothing. *)
Lemma addTransfers_none acc tx : hasJpgTransfer tx = false -> addTransfers acc tx = acc.
Proof.
  unfold hasJpgTransfer, addTransfers. intros H.
  induction (tokenTransfers tx) as [|t l IH]; simpl in *; [reflexivity|].
  apply orb_false_iff in H as [Ht Hl]. rewrite Ht. apply IH, Hl.
Qed.

(** Summing over the transactions that carry tracked-token transfers is
    summing over all of them. *)
Lemma volume_of_filtered (transactions : list EnhancedTokenTransaction) acc :
  fold_left addTransfers (List.filter hasJpgTransfer transactions) acc
  = fold_left addTransfers transactions acc.
Proof.
  revert acc. induction transactions as [|tx l IH]; intros acc; simpl; [reflexivity|].
  destruct (hasJpgTransfer tx) eqn:E; simpl.
  - apply IH.
  - rewrite (addTransfers_none acc tx E). apply IH.
Qed.

(** The volume is the sum of [|tokenAmount|] over every tracked-token
    transfer of the history, in order. *)
Lemma volume_is_sum_of_tracked_transfers (transactions : list EnhancedTokenTransaction) :
  volumeOf (List.filter hasJpgTransfer transactions)
  = sumOf (fun t => Qabs (tt_tokenAmount t))
          (List.filter isJpgTransfer (flat_map tokenTransfers transactions)).
Proof.
  unfold volumeOf, sumOf. rewrite volume_of_filtered. generalize 0%Q.
  induction transactions as [|tx l IH]; intros acc; simpl; [reflexivity|].
  rewrite List.filter_app, fold_left_app. apply IH.
Qed.

(** C8 (amended).  The total volume is the sum of the absolute amounts of the
    tracked-token transfers of the history; the average transaction size is
    that volume divided by the number of the wallet's transactions of any
    kind (fee payer or party of a token or native transfer), and 0 when there
    is none. *)
Theorem wallet_volume_and_average
    (address : string) rpcResult supplyResult topHolders
    (transactions : list EnhancedTokenTransaction) (info : WalletInfo) :
  getWalletInfo address rpcResult supplyResult topHolders transactions = Some info ->
  let walletCount := length (List.filter (involvesWallet address) transactions) in
  wi_totalVolume info
    = sumOf (fun t => Qabs (tt_tokenAmount t))
            (List.filter isJpgTransfer (flat_map tokenTransfers transactions))
  /\ wi_totalTransactions info = walletCount
  /\ wi_averageTransactionSize info
     = (if 0 <? walletCount
        then (wi_totalVolume info / inject_Z (Z.of_nat walletCount))%Q
        else 0%Q).
Proof.
  intros H walletCount. subst walletCount. unfold getWalletInfo in H.
  destruct rpcResult as [[[|a value]|]|e]; try discriminate.
  destruct (length _ =? 0); [discriminate|].
  destruct supplyResult as [sv|e]; [|discriminate].
  injection H as <-. simpl.
  split; [apply volume_is_sum_of_tracked_transfers|]. split; reflexivity.
Qed.

Lemma wallet_volume_and_average_witness :
  let transactions := [Samples.swapTx "sig1"; Samples.otherTx "sig2"] in
  match getWalletInfo Samples.walletA (Resolved (Some Samples.sampleTokenAccounts))
          (Resolved Samples.sampleSupplyValue) Samples.sampleHolders transactions with
  | Some info =>
      wi_totalTransactions info = 2
      /\ wi_averageTransactionSize info = (wi_totalVolume info / inject_Z 2)%Q
  | None => False
  end.
Proof.
  intros transactions.
  destruct (getWalletInfo Samples.walletA (Resolved (Some Samples.sampleTokenAccounts))
              (Resolved Samples.sampleSupplyValue) Samples.sampleHolders transactions)
    as [info|] eqn:E; [|discriminate E].
  destruct (wallet_volume_and_average _ _ _ _ _ _ E) as (_ & H2 & H3).
  split; [exact H2 | exact H3].
Defined.

(** C8 (as stated) fails: one tracked-token transfer of 10 and one other
    transaction of the wallet give a volume of 10 and an average of 5; without
    the other transaction the average is 10. *)
Lemma average_depends_on_other_transactions :
  let lookup := getWalletInfo Samples.walletA (Resolved (Some Samples.sampleTokenAccounts))
                  (Resolved Samples.sampleSupplyValue) Samples.sampleHolders in
  match lookup [Samples.swapTx "sig1"; Samples.otherTx "sig2"],
        lookup [Samples.swapTx "sig1"] with
  | Some info, Some alone =>
      (wi_totalVolume info == 10)%Q /\ (wi_totalVolume alone == 10)%Q
      /\ (wi_averageTransactionSize info == 5)%Q
      /\ (wi_averageTransactionSize alone == 10)%Q
      /\ ~ (wi_averageTransactionSize info == wi_averageTransactionSize alone)%Q
  | _, _ => False
  end.
Proof. vm_compute. repeat split; try reflexivity; discriminate. Qed.

(** *** Token metadata cache *)

Lemma fresh_cache_serves (s : MetadataStore) (m : TokenMetadata) (t : Z)
    (call : nat) (now : Z) :
  cache s = mkCache (Some m) t ->
  (now - t < CACHE_DURATION)%Z ->
  getTokenMetadataStart s call now = (s, {| returned := Some m; issued := [] |}).
Proof.
  intros Hc H. unfold getTokenMetadataStart, cacheHit. rewrite Hc. simpl.
  apply Z.ltb_lt in H. rewrite H. reflexivity.
Qed.

Lemma fresh_cache_serves_all (s : MetadataStore) (m : TokenMetadata) (t : Z)
    (later : list (nat * Z)) :
  cache s = mkCache (Some m) t ->
  Forall (fun call => (snd call - t < CACHE_DURATION)%Z) later ->
  metadataRun s (map (fun call => Called (fst call) (snd call)) later)
  = (s, map (fun _ => {| returned := Some m; issued := [] |}) later).
Proof.
  intros Hc. induction 1 as [|[call now] later Hnow _ IH]; simpl; [reflexivity|].
  rewrite (fresh_cache_serves s m t) by (simpl in Hnow; auto).
  rewrite IH. reflexivity.
Qed.

Lemma resume_writes_cache (s : MetadataStore) (call : nat) (now : Z) (up : Upstream) :
  startOf call (inFlight s) = Some now ->
  getTokenMetadataResume s call up
  = ({| cache := snd (fst (refreshMetadata now up));
        inFlight := landed call (inFlight s) |},
     {| returned := Some (fst (fst (refreshMetadata now up)));
        issued := tl (snd (refreshMetadata now up)) |}).
Proof.
  intros H. unfold getTokenMetadataResume. rewrite H.
  destruct (refreshMetadata now up) as [[m c] reqs]. reflexivity.
Qed.

(** C9.  When every upstream fetch of a waiting call of [getTokenMetadata]
    fails, the call returns the hardcoded fallback record and caches it,
    stamped with the clock reading the call took on entry.  Every call that
    enters after that, before the answers of any other waiting call are in
    and less than five minutes after that reading, returns the same record
    and issues no upstream request. *)
Theorem failed_metadata_fallback_is_cached
    (s : MetadataStore) (call : nat) (now : Z) (up : Upstream)
    (later : list (nat * Z)) :
  startOf call (inFlight s) = Some now ->
  (exists e, metadataResponse up = Rejected e) ->
  (exists e, tokenInfo up = Rejected e) ->
  Forall (fun next => (snd next - now < CACHE_DURATION)%Z) later ->
  let '(s1, o1) := getTokenMetadataResume s call up in
  returned o1 = Some hardcodedFallback
  /\ issued o1 = []
  /\ cache s1 = mkCache (Some hardcodedFallback) now
  /\ metadataRun s1 (map (fun next => Called (fst next) (snd next)) later)
     = (s1, map (fun _ => {| returned := Some hardcodedFallback; issued := [] |}) later).
Proof.
  intros Hflight [e He] _ Hlater.
  rewrite (resume_writes_cache s call now up Hflight).
  unfold refreshMetadata. rewrite He. simpl.
  repeat split.
  apply (fresh_cache_serves_all _ hardcodedFallback now); [reflexivity | exact Hlater].
Qed.

Lemma failed_metadata_fallback_is_cached_witness :
  let '(s0, o0) := getTokenMetadataStart initialStore 1 0 in
  let '(s1, o1) := getTokenMetadataResume s0 1 Samples.allFailing in
  o0 = {| returned := None; issued := [TokenMetadataFetch] |}
  /\ returned o1 = Some hardcodedFallback
  /\ snd (metadataRun s1 [Called 2 10000; Called 3 299999])
     = [ {| returned := Some hardcodedFallback; issued := [] |};
         {| returned := Some hardcodedFallback; issued := [] |} ].
Proof.
  pose proof (failed_metadata_fallback_is_cached
                (fst (getTokenMetadataStart initialStore 1 0)) 1 0 Samples.allFailing
                [(2%nat, 10000%Z); (3%nat, 299999%Z)]) as H.
  simpl in H. simpl.
  destruct H as (Hret & _ & _ & Hrun).
  - reflexivity.
  - eexists. reflexivity.
  - eexists. reflexivity.
  - repeat constructor; simpl; unfold CACHE_DURATION; lia.
  - split; [reflexivity|]. split; [exact Hret|].
    exact (f_equal snd Hrun).
Defined.

(** Two callers enter before either has its answer, as at mount.  Both go
    upstream.  The first fails on every request and returns the fallback;
    the second then succeeds and its write replaces the cached fallback, so
    the caller that enters ten seconds later is served the second call's
    record, not the fallback. *)
Lemma overlapping_call_replaces_cached_fallback :
  let seen := snd (metadataRun initialStore Samples.overlappingMount) in
  map issued seen = [[TokenMetadataFetch]; [TokenMetadataFetch]; []; []; []]
  /\ nth_error (map returned seen) 2 = Some (Some hardcodedFallback)
  /\ (exists m, nth_error (map returned seen) 4 = Some (Some m)
                /\ md_name m = "Glitch" /\ m <> hardcodedFallback)
  /\ (10000 - 0 < CACHE_DURATION)%Z.
Proof.
  vm_compute. split; [reflexivity|]. split; [reflexivity|].
  split; [|reflexivity].
  eexists. split; [reflexivity|]. split; [reflexivity | discriminate].
Qed.

(** Past the five minutes the cache is stale and upstream is asked again. *)
Lemma stale_cache_refetches (s : MetadataStore) (m : TokenMetadata) (t : Z)
    (call : nat) (now : Z) :
  cache s = mkCache (Some m) t ->
  (CACHE_DURATION <= now - t)%Z ->
  snd (getTokenMetadataStart s call now)
  = {| returned := None; issued := [TokenMetadataFetch] |}.
Proof.
  intros Hc H. unfold getTokenMetadataStart, cacheHit. rewrite Hc. simpl.
  apply Z.ltb_ge in H. rewrite H. reflexivity.
Qed.

End WalletFacts.

(* ===================================================================== *)
(** ** Properties of the transaction merge *)
(* ===================================================================== *)

Section MergeFacts.
Import Store.
Implicit Types txs prev valid : list EnhancedTokenTransaction.

(** The set test of line 98 agrees with membership in the window. *)
Lemma existing_spec prev (tx : EnhancedTokenTransaction) :
  bool_decide (signature tx ∈ (list_to_set (map signature prev) : gset string)) = true
  <-> In (signature tx) (map signature prev).
Proof.
  rewrite bool_decide_eq_true, elem_of_list_to_set. apply list_elem_of_In.
Qed.

Lemma merge_unfold txs prev :
  mergeTransactions txs prev =
  match validNewTransactions txs prev with
  | [] => prev
  | _ :: _ => firstn 50 (validNewTransactions txs prev ++ prev)
  end.
Proof.
  unfold mergeTransactions.
  destruct (validNewTransactions txs prev); reflexivity.
Qed.

Lemma validNew_In txs prev tx :
  In tx (validNewTransactions txs prev) <->
  In tx txs /\ ~ In (signature tx) (map signature prev)
  /\ hasTransfers tx = true /\ isDescribed tx = true.
Proof.
  unfold validNewTransactions. rewrite !filter_In, negb_true_iff.
  rewrite <- existing_spec, not_true_iff_false. tauto.
Qed.

Lemma NoDup_map_filter {A B} (f : A -> B) (p : A -> bool) (l : list A) :
  NoDup (map f l) -> NoDup (map f (List.filter p l)).
Proof.
  induction l as [|x l IH]; simpl; [auto|].
  rewrite NoDup_cons. intros [Hx Hl].
  destruct (p x); simpl; [|auto].
  apply NoDup_cons. split; [|auto].
  rewrite list_elem_of_In, in_map_iff in *.
  intros (y & Hy & Hin). apply Hx. exists y. split; [exact Hy|].
  apply filter_In in Hin. tauto.
Qed.

Lemma validNew_NoDup txs prev :
  NoDup (map signature txs) -> NoDup (map signature (validNewTransactions txs prev)).
Proof. intros H. unfold validNewTransactions. do 3 apply NoDup_map_filter. exact H. Qed.

Lemma merge_length txs prev : length prev <= 50 -> length (mergeTransactions txs prev) <= 50.
Proof.
  intros H. rewrite merge_unfold. destruct (validNewTransactions txs prev); [exact H|].
  rewrite length_take. lia.
Qed.

Lemma merge_NoDup txs prev :
  NoDup (map signature txs) -> NoDup (map signature prev) ->
  NoDup (map signature (mergeTransactions txs prev)).
Proof.
  intros Ht Hp. rewrite merge_unfold.
  destruct (validNewTransactions txs prev) eqn:E; [exact Hp|]. rewrite <- E.
  rewrite <- firstn_map.
  eapply sublist_NoDup; [|apply sublist_take].
  rewrite map_app. apply NoDup_app. split; [apply validNew_NoDup, Ht|]. split; [|exact Hp].
  intros s Hs Hs'. rewrite list_elem_of_In in Hs, Hs'.
  apply in_map_iff in Hs as (tx & <- & Htx). apply validNew_In in Htx. tauto.
Qed.

Lemma window_length w : Window w -> length w <= 50.
Proof. induction 1; [simpl; lia | apply merge_length; assumption]. Qed.

Lemma clean_window w : CleanWindow w -> Window w /\ NoDup (map signature w).
Proof.
  induction 1 as [|txs prev Ht Hc [IHw IHn]].
  - split; constructor.
  - split; [constructor; exact IHw | apply merge_NoDup; assumption].
Qed.

(** Shape of a merge: a prefix of the new valid records, then a prefix of
    the window. *)
Lemma merge_shape txs prev :
  exists added kept,
    mergeTransactions txs prev = added ++ kept
    /\ isPrefixOf kept prev /\ isPrefixOf added (validNewTransactions txs prev).
Proof.
  rewrite merge_unfold. destruct (validNewTransactions txs prev) eqn:E.
  - exists [], prev. split; [reflexivity|]. split; [exists []; symmetry; apply app_nil_r | exists []; reflexivity].
  - rewrite <- E. rewrite firstn_app.
    exists (firstn 50 (validNewTransactions txs prev)), (firstn (50 - length (validNewTransactions txs prev)) prev).
    split; [reflexivity|]. split.
    + eexists. symmetry. apply firstn_skipn.
    + eexists. symmetry. apply firstn_skipn.
Qed.



(** C3 (amended).  Merging a poll into a window the store can hold gives a
    window made of some of the poll's meaningful records whose signatures the
    window did not hold, followed by an initial segment of the window in its
    order; it has at most 50 entries; when the poll brings no new meaningful
    record the window is returned as it was; and, provided this poll and the
    earlier ones list no signature twice, the window holds no signature
    twice. *)
Theorem merge_into_window txs prev :
  Window prev ->
  let w := mergeTransactions txs prev in
  (exists added kept,
      w = added ++ kept
      /\ isPrefixOf kept prev
      /\ isPrefixOf added (validNewTransactions txs prev)
      /\ forall tx, In tx added ->
           In tx txs /\ ~ In (signature tx) (map signature prev)
           /\ hasTransfers tx = true /\ isDescribed tx = true)
  /\ length w <= 50
  /\ ((forall tx, In tx txs ->
         In (signature tx) (map signature prev)
         \/ hasTransfers tx = false \/ isDescribed tx = false) ->
      w = prev)
  /\ (CleanWindow prev -> NoDup (map signature txs) -> NoDup (map signature w)).
Proof.
  intros Hw w. subst w.
  split; [|split; [|split]].
  - destruct (merge_shape txs prev) as (added & kept & E & Hk & [rest Ha]).
    exists added, kept. split; [exact E|]. split; [exact Hk|].
    split; [exists rest; exact Ha|].
    intros tx Hin. apply validNew_In. rewrite Ha. apply in_or_app. left. exact Hin.
  - apply merge_length, window_length, Hw.
  - intros Hnone. rewrite merge_unfold.
    destruct (validNewTransactions txs prev) as [|tx l] eqn:E; [reflexivity|].
    assert (Hin : In tx (validNewTransactions txs prev)) by (rewrite E; left; reflexivity).
    apply validNew_In in Hin as (Hin & Hnew & Htr & Hde).
    destruct (Hnone tx Hin) as [H|[H|H]]; [contradiction | congruence | congruence].
  - intros Hc Ht. apply merge_NoDup; [exact Ht | apply (clean_window _ Hc)].
Qed.

Lemma merge_into_window_witness :
  let txs := [Samples.swapTx "sig2"; Samples.swapTx "sig1"] in
  let prev := [Samples.swapTx "sig1"] in
  Window prev /\ CleanWindow prev /\ NoDup (map signature txs)
  /\ map signature (mergeTransactions txs prev) = ["sig2"; "sig1"]
  /\ length (mergeTransactions txs prev) <= 50
  /\ NoDup (map signature (mergeTransactions txs prev)).
Proof.
  intros txs prev.
  assert (Hclean : CleanWindow prev).
  { change prev with (mergeTransactions [Samples.swapTx "sig1"] []).
    apply CleanMerge; [|apply CleanInitial].
    apply (bool_decide_unpack _). vm_compute. exact I. }
  assert (Hprev : Window prev).
  { change prev with (mergeTransactions [Samples.swapTx "sig1"] []).
    apply WindowMerge, WindowInitial. }
  assert (Htxs : NoDup (map signature txs)).
  { apply (bool_decide_unpack _). vm_compute. exact I. }
  pose proof (merge_into_window txs prev Hprev) as (_ & Hlen & _ & Hnodup).
  split; [exact Hprev|]. split; [exact Hclean|]. split; [exact Htxs|].
  split; [vm_compute; reflexivity|]. split; [exact Hlen | exact (Hnodup Hclean Htxs)].
Defined.

(** C3 (as stated) fails: the signature test looks at the window only, so a
    poll that lists one signature twice puts both records in the window. *)
Lemma merge_repeated_signature_in_poll :
  Window []
  /\ map signature (mergeTransactions [Samples.swapTx "sig1"; Samples.swapTx "sig1"] [])
     = ["sig1"; "sig1"]
  /\ ~ NoDup (map signature
                (mergeTransactions [Samples.swapTx "sig1"; Samples.swapTx "sig1"] [])).
Proof.
  split; [constructor|]. split; [vm_compute; reflexivity|].
  intros H. apply (bool_decide_pack _) in H. vm_compute in H. exact H.
Qed.
End MergeFacts.

(* ===================================================================== *)
(** ** Properties of the polling store *)
(* ===================================================================== *)

Section StoreFacts.
Import Store.

(** C5.  A static refresh cycle that fails leaves [metrics], [supply],
    [holders] and [tokenMetadata] as they were and calls none of their
    setters; one that succeeds replaces the four together, in one
    synchronous run of four setter calls. *)
Theorem static_refresh_all_or_nothing (result : outcome StaticData) (c : Component) :
  let c' := fetchStaticData result c in
  match result with
  | Rejected e =>
      metrics (state c') = metrics (state c)
      /\ supply (state c') = supply (state c)
      /\ holders (state c') = holders (state c)
      /\ tokenMetadata (state c') = tokenMetadata (state c)
      /\ calls c' = calls c ++ [SetError; SetError; SetLoading]
  | Resolved (metricsData, supplyData, holdersData, metadataData) =>
      metrics (state c') = Some metricsData
      /\ supply (state c') = Some supplyData
      /\ holders (state c') = holdersData
      /\ tokenMetadata (state c') = Some metadataData
      /\ calls c' = calls c ++ [SetError; SetMetrics; SetSupply; SetHolders;
                                SetTokenMetadata; SetLoading]
  end.
Proof.
  intros c'. subst c'. destruct result as [[[[m s] h] md]|e]; simpl;
    repeat split; rewrite <- ?app_assoc; reflexivity.
Qed.

(** The part of a refresh that runs before its [await] touches none of the
    four fields either. *)
Lemma static_refresh_start_frame (c : Component) :
  let c' := fetchStaticDataStart c in
  metrics (state c') = metrics (state c)
  /\ supply (state c') = supply (state c)
  /\ holders (state c') = holders (state c)
  /\ tokenMetadata (state c') = tokenMetadata (state c).
Proof. repeat split. Qed.

(** Unmounting cancels both intervals and clears the flag. *)
Lemma unmount_cancels_timers (c : Component) :
  pollingTimer (unmount c) = false /\ staticTimer (unmount c) = false
  /\ isMounted (unmount c) = false.
Proof. repeat split. Qed.

(** Once unmounted, a tick changes nothing and a poll that settles late is
    dropped by the [isMounted] guard: no setter is called. *)
Lemma unmounted_ignores_ticks_and_polls (c : Component) (e : event) :
  isMounted c = false -> pollingTimer c = false -> staticTimer c = false ->
  match e with StaticSettled _ => False | _ => True end ->
  state (step c e) = state c /\ calls (step c e) = calls c.
Proof.
  intros Hm Hp Hs He. destruct e as [| |isInitial result|result|]; simpl.
  - rewrite Hp. auto.
  - rewrite Hs. auto.
  - destruct (existsb _ _); [|auto].
    unfold fetchTransactionsResume. simpl. rewrite Hm. simpl. auto.
  - contradiction.
  - auto.
Qed.

(** C6 at a static refresh in flight at unmount.  After the component is
    unmounted (both intervals cancelled, flag cleared) the refresh started on
    mount settles and its continuation runs unguarded: it calls the state
    setters, and a successful one writes the four fields. *)
Theorem late_static_refresh_updates_state (result : outcome StaticData) :
  let c := step mounted Unmount in
  let c' := step c (StaticSettled result) in
  isMounted c = false /\ pollingTimer c = false /\ staticTimer c = false
  /\ (exists called, called <> [] /\ calls c' = calls c ++ called)
  /\ match result with
     | Resolved (metricsData, supplyData, holdersData, metadataData) =>
         metrics (state c) = None
         /\ metrics (state c') = Some metricsData
         /\ supply (state c') = Some supplyData
         /\ holders (state c') = holdersData
         /\ tokenMetadata (state c') = Some metadataData
     | Rejected e => error (state c) = None /\ error (state c') <> None
     end.
Proof.
  intros c c'. subst c c'. split; [reflexivity|]. split; [reflexivity|]. split; [reflexivity|].
  destruct result as [[[[m s] h] md]|e]; simpl.
  - split; [|repeat split].
    exists [SetMetrics; SetSupply; SetHolders; SetTokenMetadata; SetLoading].
    split; [discriminate | reflexivity].
  - split; [|split; [reflexivity | discriminate]].
    exists [SetError; SetLoading]. split; [discriminate | reflexivity].
Qed.

(** The same run evaluated on concrete data. *)
Lemma late_static_refresh_example :
  let c := run mounted [Unmount; StaticSettled (Resolved Samples.sampleStatic)] in
  isMounted c = false
  /\ metrics (state c) = Some Samples.sampleMetrics
  /\ calls c = [SetLoading; SetError; SetError;
                SetMetrics; SetSupply; SetHolders; SetTokenMetadata; SetLoading].
Proof. repeat split. Qed.

End StoreFacts.

(* ===================================================================== *)
(** ** More on the retry policy *)
(* ===================================================================== *)

Section RetryFacts.
Import Governor.
Context {T : Type}.
Variable fn : nat -> outcome T.
Variable random : nat -> Q.
Variable maxRetries : nat.
Variable baseDelay : Q.

Lemma retryLoop_shape (left i : nat) :
  0 < left -> i + left = maxRetries ->
  let r := retryLoop fn random maxRetries baseDelay left i in
  1 <= attempts (snd r) <= left
  /\ length (sleeps (snd r)) = attempts (snd r) - 1
  /\ fst r = fn (i + attempts (snd r) - 1).
Proof.
  revert i. induction left as [|left IH]; intros i Hpos Hsum; [lia|].
  simpl. destruct (fn i) as [v|e] eqn:Efn.
  - simpl. rewrite Nat.add_sub. split; [lia|]. split; [reflexivity | symmetry; exact Efn].
  - destruct (Nat.eqb_spec i (maxRetries - 1)) as [E|NE].
    + simpl. rewrite Nat.add_sub. split; [lia|]. split; [reflexivity | symmetry; exact Efn].
    + destruct (IH (S i)) as (Ha & Hs & Hr); [lia | lia |].
      simpl. split; [lia|]. split; [lia|].
      rewrite Hr. f_equal. lia.
Qed.

Lemma retry_shape :
  let r := retryWithBackoff fn random maxRetries baseDelay in
  attempts (snd r) <= maxRetries
  /\ length (sleeps (snd r)) = attempts (snd r) - 1
  /\ (0 < maxRetries ->
      1 <= attempts (snd r) /\ fst r = fn (attempts (snd r) - 1))
  /\ (maxRetries = 0 ->
      attempts (snd r) = 0 /\ fst r = Rejected (Error "Max retries exceeded")).
Proof.
  intros r. subst r. unfold retryWithBackoff.
  destruct maxRetries as [|n] eqn:En.
  - simpl. repeat split; lia.
  - rewrite <- En.
    destruct (retryLoop_shape maxRetries 0) as (Ha & Hs & Hr); [lia | lia |].
    simpl in Hr. split; [lia|]. split; [exact Hs|]. split; [|lia].
    intros _. split; [lia | exact Hr].
Qed.

(** The retry wrapper invokes the operation at most [maxRetries] times,
    waits exactly once between two invocations, and, when [maxRetries] is
    at least 1, invokes it at least once and settles to what the last
    invocation settled to; with [maxRetries = 0] it never invokes the
    operation and rejects with its own error. *)
Theorem retry_result_is_last_attempt :
  let r := retryWithBackoff fn random maxRetries baseDelay in
  attempts (snd r) <= maxRetries
  /\ length (sleeps (snd r)) = attempts (snd r) - 1
  /\ (0 < maxRetries ->
      1 <= attempts (snd r) /\ fst r = fn (attempts (snd r) - 1))
  /\ (maxRetries = 0 ->
      attempts (snd r) = 0 /\ fst r = Rejected (Error "Max retries exceeded")).
Proof.
  intros r. subst r. unfold retryWithBackoff.
  destruct maxRetries as [|n] eqn:En.
  - simpl. repeat split; lia.
  - rewrite <- En.
    destruct (retryLoop_shape maxRetries 0) as (Ha & Hs & Hr); [lia | lia |].
    simpl in Hr. split; [lia|]. split; [exact Hs|]. split; [|lia].
    intros _. split; [lia | exact Hr].
Qed.

Lemma retryLoop_first_success (v : T) (k : nat) :
  forall left i,
    i + left = maxRetries -> i <= k -> k < maxRetries ->
    (forall j, i <= j < k -> exists e, fn j = Rejected e) ->
    fn k = Resolved v ->
    let r := retryLoop fn random maxRetries baseDelay left i in
    fst r = Resolved v /\ attempts (snd r) = k - i + 1
    /\ length (sleeps (snd r)) = k - i.
Proof.
  induction left as [|left IH]; intros i Hsum Hik Hk Hfail Hok; [lia|].
  simpl. destruct (Nat.eq_dec i k) as [->|Hne].
  - rewrite Hok. simpl. rewrite Nat.sub_diag. auto.
  - destruct (Hfail i) as [e He]; [lia|]. rewrite He.
    destruct (Nat.eqb_spec i (maxRetries - 1)) as [E|NE]; [lia|].
    destruct (IH (S i)) as (H1 & H2 & H3); [lia | lia | lia | | exact Hok |].
    { intros j Hj. apply Hfail. lia. }
    simpl. split; [exact H1|]. split; [rewrite H2; lia | rewrite H3; lia].
Qed.

(** When the operation first succeeds at its [k]-th invocation, with
    [k < maxRetries], the wrapper resolves with that value after [k + 1]
    invocations and [k] waits. *)
Theorem retry_stops_at_first_success (v : T) (k : nat) :
  k < maxRetries ->
  (forall j, j < k -> exists e, fn j = Rejected e) ->
  fn k = Resolved v ->
  let r := retryWithBackoff fn random maxRetries baseDelay in
  fst r = Resolved v /\ attempts (snd r) = k + 1 /\ length (sleeps (snd r)) = k.
Proof.
  intros Hk Hfail Hok r. subst r. unfold retryWithBackoff.
  destruct (retryLoop_first_success v k maxRetries 0) as (H1 & H2 & H3);
    [lia | lia | exact Hk | | exact Hok |].
  { intros j Hj. apply Hfail. lia. }
  split; [exact H1|]. split; [rewrite H2; lia | rewrite H3; lia].
Qed.

End RetryFacts.

Lemma retry_result_is_last_attempt_witness :
  let fn := fun k : nat => if k =? 1 then Resolved 42 else Rejected (Error "HTTP error! status: 500") in
  let r := Governor.retryWithBackoff fn (fun _ => 0%Q) 3 2000%Q in
  0 < 3 /\ Governor.attempts (snd r) = 2 /\ fst r = Resolved 42.
Proof.
  intros fn r.
  destruct (retry_result_is_last_attempt fn (fun _ => 0%Q) 3 2000%Q) as (_ & _ & H & _).
  assert (Hpos : 0 < 3) by lia.
  split; [exact Hpos|]. split; [reflexivity|].
  destruct (H Hpos) as [_ Hr]. exact Hr.
Defined.

Lemma retry_stops_at_first_success_witness :
  let fn := fun k : nat => if k =? 1 then Resolved 42 else Rejected (Error "HTTP error! status: 500") in
  let r := Governor.retryWithBackoff fn (fun _ => 0%Q) 3 2000%Q in
  1 < 3 /\ fst r = Resolved 42 /\ Governor.attempts (snd r) = 2.
Proof.
  intros fn r.
  assert (Hk : 1 < 3) by lia.
  assert (Hfail : forall j, j < 1 -> exists e, fn j = Rejected e).
  { intros j Hj. assert (j = 0) by lia. subst j. eexists. reflexivity. }
  destruct (retry_stops_at_first_success fn (fun _ => 0%Q) 3 2000%Q 42 1 Hk Hfail eq_refl)
    as (H1 & H2 & _).
  split; [exact Hk|]. split; [exact H1 | exact H2].
Defined.

Section GovernedCallFacts.
Import Governor.






(** [fetchWithRetry] resolves only with a response one of its (at most
    three) [fetch] attempts returned and whose status is in 200-299: code
    that receives its result never sees [response.ok] false. *)
Theorem fetchWithRetry_resolves_only_ok
    {B} (transport : nat -> outcome (Response B)) (random : nat -> Q)
    (response : Response B) :
  fst (fetchWithRetryCall transport random) = Resolved response ->
  ok response = true
  /\ exists k, k < governedMaxRetries /\ transport k = Resolved response.
Proof.
  intros H. unfold fetchWithRetryCall in H.
  destruct (retry_shape (fun k => fetchOperation (transport k)) random
              governedMaxRetries governedBaseDelay) as (Hle & _ & Hlast & _).
  destruct Hlast as [Hge Hlast]; [unfold governedMaxRetries; lia|].
  rewrite H in Hlast. symmetry in Hlast.
  set (k := attempts _ - 1) in Hlast.
  assert (Hk : k < governedMaxRetries) by (subst k; lia).
  unfold fetchOperation in Hlast.
  destruct (transport k) as [resp|e] eqn:Et; [|discriminate].
  destruct (ok resp) eqn:Eok; simpl in Hlast.
  - injection Hlast as <-. split; [exact Eok|]. exists k. split; [exact Hk | exact Et].
  - destruct (status resp =? 429)%Z; discriminate.
Qed.

Lemma fetchWithRetry_resolves_only_ok_witness :
  let transport := fun k : nat =>
    if k =? 2 then Resolved (mkResponse 200 "" tt)
    else Resolved (mkResponse 503 "" tt) in
  fst (fetchWithRetryCall transport (fun _ => 0%Q)) = Resolved (mkResponse 200 "" tt)
  /\ ok (mkResponse 200 "" tt) = true.
Proof.
  intros transport.
  assert (H : fst (fetchWithRetryCall transport (fun _ => 0%Q))
              = Resolved (mkResponse 200 "" tt)) by reflexivity.
  split; [exact H|].
  apply (fetchWithRetry_resolves_only_ok transport (fun _ => 0%Q) _ H).
Defined.

(** [rpcCall] resolves only with the [result] of a 2xx reply that carries
    no [error] member; a reply with an [error] member is a failure of the
    attempt whose message is the upstream message after "RPC Error: ". *)
Theorem rpcCall_resolves_only_results
    {R} (transport : nat -> outcome (Response (RpcBody R))) (random : nat -> Q)
    (result : R) :
  fst (rpcCallCall transport random) = Resolved result ->
  exists k response,
    k < governedMaxRetries /\ transport k = Resolved response
    /\ ok response = true /\ body response = RpcResult result.
Proof.
  intros H. unfold rpcCallCall in H.
  destruct (retry_shape (fun k => rpcOperation (transport k)) random
              governedMaxRetries governedBaseDelay) as (Hle & _ & Hlast & _).
  destruct Hlast as [Hge Hlast]; [unfold governedMaxRetries; lia|].
  rewrite H in Hlast. symmetry in Hlast.
  set (k := attempts _ - 1) in Hlast.
  assert (Hk : k < governedMaxRetries) by (subst k; lia).
  unfold rpcOperation in Hlast.
  destruct (transport k) as [resp|e] eqn:Et; [|discriminate].
  destruct (ok resp) eqn:Eok; simpl in Hlast.
  - destruct (body resp) as [e|msg|res] eqn:Eb; try discriminate.
    injection Hlast as <-. exists k, resp. auto.
  - destruct (status resp =? 429)%Z; discriminate.
Qed.

Lemma rpcCall_resolves_only_results_witness :
  let transport := fun k : nat =>
    if k =? 0 then Resolved (mkResponse 200 "" (RpcError (R := nat) "Invalid param"))
    else Resolved (mkResponse 200 "" (RpcResult 7)) in
  fst (rpcCallCall transport (fun _ => 0%Q)) = Resolved 7
  /\ exists k response,
       k < governedMaxRetries /\ transport k = Resolved response
       /\ ok response = true /\ body response = RpcResult 7.
Proof.
  intros transport.
  assert (H : fst (rpcCallCall transport (fun _ => 0%Q)) = Resolved 7) by reflexivity.
  split; [exact H|].
  apply (rpcCall_resolves_only_results transport (fun _ => 0%Q) 7 H).
Defined.

End GovernedCallFacts.

(* ===================================================================== *)
(** ** More on the request queue *)
(* ===================================================================== *)

Section QueueOrderFacts.
Import Governor.
Context {V : Type}.
Variable run : nat -> outcome V.
Implicit Types q : @RequestQueue V.

Lemma loopHead_conserves q : started (loopHead q) ++ queue (loopHead q) = started q ++ queue q.
Proof.
  unfold loopHead. destruct (queue q) as [|x l] eqn:E; simpl.
  - reflexivity.
  - rewrite <- app_assoc. f_equal. apply (firstn_skipn batchSize (x :: l)).
Qed.

Lemma step_conserves q (a : action) :
  started (step run q a) ++ queue (step run q a)
  = (started q ++ queue q) ++ addedCalls [a].
Proof.
  destruct a as [c|c| |]; simpl.
  - unfold add, process. simpl.
    destruct (processing q || (length (queue q ++ [c]) =? 0)).
    + simpl. apply app_assoc.
    + rewrite loopHead_conserves. simpl. apply app_assoc.
  - rewrite app_nil_r. unfold settle. destruct (existsb _ _); reflexivity.
  - rewrite app_nil_r. unfold batchSettled. pose proof (loopHead_conserves q) as HL.
    destruct (pc q); try reflexivity. destruct (inflight q); try reflexivity.
    destruct (queue q) eqn:E; [exact HL | reflexivity].
  - rewrite app_nil_r. unfold delayElapsed.
    destruct (pc q); try reflexivity. apply loopHead_conserves.
Qed.

Lemma addedCalls_app (h1 h2 : list action) :
  addedCalls (h1 ++ h2) = addedCalls h1 ++ addedCalls h2.
Proof.
  induction h1 as [|[c|c| |] h1 IH]; simpl; rewrite ?IH; reflexivity.
Qed.

Lemma fold_conserves (h : list action) q :
  started (fold_left (step run) h q) ++ queue (fold_left (step run) h q)
  = (started q ++ queue q) ++ addedCalls h.
Proof.
  revert q. induction h as [|a h IH]; intros q; simpl fold_left.
  - simpl. rewrite app_nil_r. reflexivity.
  - rewrite IH, step_conserves. rewrite <- app_assoc.
    change (a :: h) with ([a] ++ h). rewrite addedCalls_app. reflexivity.
Qed.

(** The operations invoked so far followed by those still queued are
    exactly the operations submitted, in submission order: the queue starts
    operations first-in first-out, loses none and starts none twice. *)
Theorem queue_starts_in_submission_order (h : list action) :
  started (after run h) ++ queue (after run h) = addedCalls h.
Proof. unfold after. rewrite fold_conserves. reflexivity. Qed.

Lemma after_conserves (h : list action) :
  started (after run h) ++ queue (after run h) = addedCalls h.
Proof. unfold after. rewrite fold_conserves. reflexivity. Qed.

(** *** Batches *)

Lemma removeCall_length (c : nat) (l : list nat) : length (removeCall c l) <= length l.
Proof. induction l as [|x l IH]; simpl; [lia|]. destruct (x =? c); simpl; lia. Qed.

Lemma removeCall_perm (c : nat) (l : list nat) :
  existsb (Nat.eqb c) l = true -> Permutation l (c :: removeCall c l).
Proof.
  induction l as [|x l IH]; simpl; [discriminate|].
  rewrite Nat.eqb_sym. destruct (Nat.eqb_spec x c) as [->|NE]; simpl.
  - intros _. reflexivity.
  - intros H. rewrite (IH H) at 1. apply perm_swap.
Qed.

Lemma loopHead_sound q :
  processing q = true -> inflight q = [] ->
  Permutation (started q) (map fst (handles q)) ->
  Forall (fun h => snd h = run (fst h)) (handles q) ->
  sound run (loopHead q).
Proof.
  intros Hp Hi Hperm Hall. split; [apply loopHead_consistent; auto|].
  unfold loopHead. destruct (queue q) as [|x l]; simpl.
  - rewrite Hi. simpl. rewrite app_nil_r. split; [lia|]. split; assumption.
  - split; [apply length_take_le || (rewrite length_take; unfold batchSize; lia)|].
    split; [|assumption].
    apply Permutation_app; [exact Hperm | reflexivity].
Qed.

Lemma step_sound q (a : action) : sound run q -> sound run (step run q a).
Proof.
  intros Hsound. pose proof Hsound as (Hc & Hlen & Hperm & Hall).
  destruct a as [c|c| |]; simpl.
  - (* add *)
    pose proof (add_consistent q c Hc) as Hc'.
    unfold add, process in *. simpl in *.
    destruct (processing q) eqn:Hp; simpl in *.
    + split; [exact Hc'|]. split; [exact Hlen|]. split; assumption.
    + assert (Hi : inflight q = []).
      { unfold consistent in Hc. destruct (pc q); [tauto | congruence |].
        destruct Hc as [Hc _]; congruence. }
      destruct (length (queue q ++ [c]) =? 0) eqn:El.
      * simpl. split; [exact Hc'|]. split; [exact Hlen|]. split; assumption.
      * apply loopHead_sound; simpl; auto.
        rewrite Hi, app_nil_r in Hperm. exact Hperm.
  - (* settle *)
    pose proof (settle_consistent run q c Hc) as Hc'.
    unfold settle in *. destruct (existsb (Nat.eqb c) (inflight q)) eqn:Ein.
    + simpl. split; [exact Hc'|].
      split; [pose proof (removeCall_length c (inflight q)); simpl; lia|].
      split; simpl.
      * rewrite map_app. simpl. rewrite <- app_assoc. simpl.
        rewrite Hperm. apply Permutation_app_head. apply removeCall_perm, Ein.
      * apply Forall_app. split; [exact Hall|]. constructor; [reflexivity | constructor].
    + exact Hsound.
  - (* the batch is over *)
    pose proof (batchSettled_consistent q Hc) as Hc'.
    unfold batchSettled in *.
    destruct (pc q) eqn:Epc; try exact Hsound.
    destruct (inflight q) eqn:Ei; try exact Hsound.
    unfold consistent in Hc. rewrite Epc in Hc.
    destruct (queue q) eqn:Eq.
    + apply loopHead_sound; auto. rewrite app_nil_r in Hperm. exact Hperm.
    + split; [exact Hc'|]. simpl. split; [lia|]. split; [|exact Hall].
      exact Hperm.
  - (* the delay elapses *)
    unfold delayElapsed. destruct (pc q) eqn:Epc;
      try exact Hsound.
    unfold consistent in Hc. rewrite Epc in Hc. destruct Hc as (Hp & Hi & Hq).
    apply loopHead_sound; auto. rewrite Hi, app_nil_r in Hperm. exact Hperm.
Qed.

Lemma fold_sound (h : list action) q : sound run q -> sound run (fold_left (step run) h q).
Proof.
  revert q. induction h as [|a h IH]; intros q Hq; simpl; [exact Hq|].
  apply IH, step_sound, Hq.
Qed.

Lemma after_sound (h : list action) : sound run (after run h).
Proof.
  apply fold_sound. split; [unfold consistent; simpl; auto|].
  simpl. split; [lia|]. split; [reflexivity | constructor].
Qed.

(** At most [batchSize] (5) operations are in flight at any time. *)
Theorem at_most_batchSize_in_flight (h : list action) :
  length (inflight (after run h)) <= batchSize.
Proof. apply (after_sound h). Qed.

(** No operation is started while a call of the current batch is still in
    flight: whatever happens next, the list of started operations stays as
    it is until the whole batch has settled. *)
Theorem no_start_before_batch_settles (h : list action) (a : action) :
  inflight (after run h) <> [] ->
  started (step run (after run h) a) = started (after run h).
Proof.
  intros Hne. pose proof (after_consistent run h) as Hc.
  set (q := after run h) in *.
  assert (Hpc : pc q = AwaitBatch).
  { unfold consistent in Hc. destruct (pc q); [tauto | reflexivity | tauto]. }
  assert (Hp : processing q = true).
  { unfold consistent in Hc. rewrite Hpc in Hc. exact Hc. }
  destruct a as [c|c| |]; simpl.
  - unfold add, process. simpl. rewrite Hp. reflexivity.
  - unfold settle. destruct (existsb _ _); reflexivity.
  - unfold batchSettled. rewrite Hpc. destruct (inflight q); [contradiction | reflexivity].
  - unfold delayElapsed. rewrite Hpc. reflexivity.
Qed.

(** Every promise the queue has settled belongs to an operation that was
    started, and is settled with what that very operation settled to: a
    failure reaches the caller of the failed operation and nobody else. *)
Theorem settled_promises_follow_their_operation (h : list action) (c : nat) (o : outcome V) :
  In (c, o) (handles (after run h)) ->
  In c (started (after run h)) /\ o = run c.
Proof.
  intros Hin. destruct (after_sound h) as (_ & _ & Hperm & Hall).
  split.
  - eapply Permutation_in; [symmetry; exact Hperm|].
    apply in_or_app. left. apply in_map_iff. exists (c, o). auto.
  - rewrite List.Forall_forall in Hall. apply (Hall (c, o) Hin).
Qed.

(** *** Draining *)

Lemma drainStep_is_step q : exists a, addedCalls [a] = [] /\ drainStep run q = step run q a.
Proof.
  unfold drainStep. destruct (pc q) eqn:Epc.
  - exists DelayElapsed. split; [reflexivity|]. simpl. unfold delayElapsed. rewrite Epc. reflexivity.
  - destruct (inflight q) as [|c rest].
    + exists BatchSettled. auto.
    + exists (Settle c). auto.
  - exists DelayElapsed. auto.
Qed.

Lemma drain_is_history (n : nat) q :
  exists acts, addedCalls acts = [] /\ drain run n q = fold_left (step run) acts q.
Proof.
  revert q. induction n as [|n IH]; intros q; simpl.
  - exists []. auto.
  - destruct (drainStep_is_step q) as (a & Ha & Hq).
    destruct (IH (drainStep run q)) as (acts & Hacts & Hd).
    exists (a :: acts). split.
    + change (a :: acts) with ([a] ++ acts). rewrite addedCalls_app, Ha, Hacts. reflexivity.
    + simpl. rewrite <- Hq. exact Hd.
Qed.

Lemma drainStep_decreases q :
  sound run q -> 0 < drainSteps q -> drainSteps (drainStep run q) < drainSteps q.
Proof.
  intros (Hc & Hlen & _ & _) Hpos. unfold drainSteps, drainStep in *.
  unfold consistent in Hc. destruct (pc q) eqn:Epc; [lia | |].
  - destruct (inflight q) as [|c rest] eqn:Ei.
    + unfold batchSettled. rewrite Epc, Ei.
      destruct (queue q) as [|x l] eqn:Eq.
      * unfold loopHead. rewrite Eq. simpl. lia.
      * simpl. lia.
    + unfold settle. rewrite Ei. simpl. rewrite Nat.eqb_refl. simpl.
      rewrite Epc. simpl. lia.
  - destruct Hc as (_ & _ & Hq). unfold delayElapsed. rewrite Epc.
    unfold loopHead. destruct (queue q) as [|x l] eqn:Eq; [contradiction|].
    cbn [pc queue inflight]. rewrite length_skipn, length_take.
    unfold batchSize. simpl length. lia.
Qed.

Lemma drain_rests (n : nat) q :
  sound run q -> drainSteps q <= n -> pc (drain run n q) = Idle.
Proof.
  revert q. induction n as [|n IH]; intros q Hs Hn; simpl.
  - destruct Hs as (Hc & _). unfold drainSteps, consistent in *.
    destruct (pc q); [reflexivity | lia |].
    destruct Hc as (_ & _ & Hq). destruct (queue q); [contradiction | simpl in Hn; lia].
  - destruct (Nat.eq_dec (drainSteps q) 0) as [Hz|Hnz].
    + assert (Hidle : pc q = Idle).
      { destruct Hs as (Hc & _). unfold drainSteps, consistent in *.
        destruct (pc q); [reflexivity | lia |].
        destruct Hc as (_ & _ & Hq). destruct (queue q); [contradiction | simpl in Hz; lia]. }
      assert (Hstay : drainStep run q = q) by (unfold drainStep; rewrite Hidle; reflexivity).
      rewrite Hstay. apply IH; [exact Hs | lia].
    + apply IH.
      * destruct (drainStep_is_step q) as (a & _ & ->). apply step_sound, Hs.
      * pose proof (drainStep_decreases q Hs). lia.
Qed.

(** Left to run with no further submission, the queue comes to rest after
    finitely many steps: the drain flag is down, the queue is empty, every
    operation ever submitted has been started, in submission order, and the
    promise of each has been settled. *)
Theorem drain_settles_every_submitted_operation (h : list action) :
  let q := drain run (drainSteps (after run h)) (after run h) in
  pc q = Idle /\ processing q = false /\ queue q = [] /\ inflight q = []
  /\ started q = addedCalls h
  /\ Permutation (map fst (handles q)) (addedCalls h).
Proof.
  intros q. subst q.
  pose proof (drain_rests _ _ (after_sound h) (Nat.le_refl _)) as Hidle.
  destruct (drain_is_history (drainSteps (after run h)) (after run h)) as (acts & Hacts & Hd).
  rewrite Hd in *.
  assert (Hafter : fold_left (step run) acts (after run h) = after run (h ++ acts))
    by (unfold after; rewrite fold_left_app; reflexivity).
  rewrite Hafter in *.
  destruct (after_sound (h ++ acts)) as (Hc & _ & Hperm & _).
  pose proof (after_conserves (h ++ acts)) as Hfifo.
  rewrite addedCalls_app, Hacts, app_nil_r in Hfifo.
  unfold consistent in Hc. rewrite Hidle in Hc. destruct Hc as (Hp & Hq & Hi).
  rewrite Hq, app_nil_r in Hfifo. rewrite Hi, app_nil_r in Hperm.
  repeat split; try assumption.
  rewrite <- Hfifo. symmetry. exact Hperm.
Qed.

End QueueOrderFacts.

Lemma no_start_before_batch_settles_witness :
  let run := fun _ : nat => Resolved 0 in
  let h := [Governor.Add 1; Governor.Add 2] in
  Governor.inflight (Governor.after run h) <> []
  /\ Governor.started (Governor.step run (Governor.after run h) (Governor.Add 3)) = [1].
Proof.
  intros run h.
  assert (Hne : Governor.inflight (Governor.after run h) <> []) by discriminate.
  split; [exact Hne|].
  rewrite (no_start_before_batch_settles run h (Governor.Add 3) Hne). reflexivity.
Defined.

Lemma settled_promises_follow_their_operation_witness :
  let run := fun c : nat => if c =? 1 then Rejected (Error "HTTP error! status: 500")
                            else Resolved c in
  let h := [Governor.Add 1; Governor.Add 2; Governor.Settle 1] in
  In (1, run 1) (Governor.handles (Governor.after run h))
  /\ In 1 (Governor.started (Governor.after run h)).
Proof.
  intros run h.
  assert (Hin : In (1, run 1) (Governor.handles (Governor.after run h)))
    by (vm_compute; left; reflexivity).
  split; [exact Hin|].
  apply (settled_promises_follow_their_operation run h 1 (run 1) Hin).
Defined.

(* ===================================================================== *)
(** ** More on the upstream client *)
(* ===================================================================== *)

Section ParseFacts.
Import Governor Client.

(** *** Batch parsing *)

Lemma orString_nonempty (s : option string) (dflt : string) :
  dflt <> "" -> orString s dflt <> "".
Proof. intros H. destruct s as [[|c s]|]; simpl; [exact H | discriminate | exact H]. Qed.

Lemma normalize_wellFormed (p : option RawTx) (r : RawTx) :
  hasSignature p = true -> p = Some r -> wellFormed (normalize r).
Proof.
  intros Hs ->. unfold hasSignature in Hs. unfold wellFormed, normalize. simpl.
  split.
  - destruct (raw_signature r) as [[|c s]|]; simpl; discriminate.
  - split; [eexists; split; [reflexivity | apply orString_nonempty; discriminate]|].
    split; [eexists; split; [reflexivity | apply orString_nonempty; discriminate]|].
    discriminate.
Qed.

Lemma parseData_wellFormed (data : list (option RawTx)) : Forall wellFormed (parseData data).
Proof.
  unfold parseData. induction data as [|[r|] data IH]; [constructor | |].
  - cbn [List.filter]. destruct (hasSignature (Some r)) eqn:E; [|exact IH].
    cbn [dropNull map].
    constructor; [apply (normalize_wellFormed (Some r)); auto | exact IH].
  - exact IH.
Qed.



Section Loop.
Variable transport : nat -> list string -> nat -> outcome (Response TxBody).
Variable random : nat -> nat -> Q.
Variable signatures : list string.

Lemma parseLoop_invariant (left : nat) :
  forall k results posted,
    Forall wellFormed results ->
    let r := parseLoop transport random signatures left (parseBatchSize * k) results posted in
    Forall wellFormed (fst r)
    /\ exists n, n <= left /\ snd r = posted ++ seq k n.
Proof.
  induction left as [|left IH]; intros k results posted Hres; cbn [parseLoop fst snd].
  - split; [exact Hres|]. exists 0. split; [lia | simpl; rewrite app_nil_r; reflexivity].
  - assert (Hb : parseBatchSize * k / parseBatchSize = k)
      by (rewrite Nat.mul_comm; apply Nat.div_mul; discriminate).
    rewrite Hb.
    assert (Hnext : parseBatchSize * k + parseBatchSize = parseBatchSize * S k) by lia.
    rewrite Hnext.
    assert (Hstop : Forall wellFormed results
                    /\ exists n, n <= S left /\ posted ++ [k] = posted ++ seq k n).
    { split; [exact Hres|]. exists 1. split; [lia | reflexivity]. }
    assert (Hgo : forall results', Forall wellFormed results' ->
              let r := parseLoop transport random signatures left (parseBatchSize * S k)
                         results' (posted ++ [k]) in
              Forall wellFormed (fst r)
              /\ exists n, n <= S left /\ snd r = posted ++ seq k n).
    { intros results' Hres'. destruct (IH (S k) results' (posted ++ [k]) Hres') as [H1 (n & Hn & H2)].
      split; [exact H1|]. exists (S n). split; [lia|].
      rewrite H2, <- app_assoc. reflexivity. }
    destruct (fst (fetchWithRetryCall _ _)) as [response|e].
    + destruct (negb (ok response)).
      * destruct (status response =? 429)%Z;
          match goal with |- context [if stopsOn ?e then _ else _] => destruct (stopsOn e) end;
          first [exact Hstop | apply Hgo, Hres].
      * destruct (body response) as [e| |data].
        -- destruct (stopsOn e); [exact Hstop | apply Hgo, Hres].
        -- apply Hgo, Hres.
        -- apply Hgo. apply Forall_app. split; [exact Hres | apply parseData_wellFormed].
    + destruct (stopsOn e); [exact Hstop | apply Hgo, Hres].
Qed.

(** Every record [parseTransactionsWithHelius] returns carries a non-empty
    signature, and its type, source and description are defined: an entry
    that is [null] or has no signature is dropped, a missing type or source
    reads "UNKNOWN". *)
Theorem parsed_records_are_well_formed :
  Forall wellFormed (parseTransactionsWithHelius transport random signatures).
Proof.
  unfold parseTransactionsWithHelius, parseTransactionsWithHeliusTrace.
  destruct (length signatures =? 0); [constructor|].
  apply (parseLoop_invariant (batchCount signatures) 0 [] [] (List.Forall_nil _)).
Qed.




End Loop.


(** [parseTransactionWithHelius] never fails and never parses on-chain:
    when the request for the single signature fails, rate limited or not, it
    returns [null]; otherwise it returns the first record with a signature
    in the reply, or [null] when there is none. *)
Theorem single_parse_never_falls_back
    (transport : nat -> list string -> nat -> outcome (Response TxBody))
    (random : nat -> nat -> Q) (signature : string) :
  parseTransactionWithHelius transport random signature
  = match fst (fetchWithRetryCall (transport 0 [signature]) (random 0)) with
    | Rejected _ => None
    | Resolved response =>
        if ok response then
          match body response with
          | TxArray data => hd_error (parseData data)
          | _ => None
          end
        else None
    end.
Proof.
  unfold parseTransactionWithHelius, parseTransactionsWithHelius,
    parseTransactionsWithHeliusTrace.
  change (batchCount [signature]) with 1.
  change (length [signature] =? 0) with false.
  cbn [parseLoop fst snd].
  change (0 / parseBatchSize) with 0.
  change (slice 0 (0 + parseBatchSize) [signature]) with [signature].
  destruct (fst (fetchWithRetryCall (transport 0 [signature]) (random 0))) as [response|e].
  - destruct (ok response); simpl.
    + destruct (body response) as [e| |data]; simpl.
      * destruct (stopsOn e); reflexivity.
      * reflexivity.
      * destruct (parseData data); reflexivity.
    + destruct (status response =? 429)%Z;
        match goal with |- context [if stopsOn ?e then _ else _] => destruct (stopsOn e) end;
        reflexivity.
  - destruct (stopsOn e); reflexivity.
Qed.

End ParseFacts.

Section RecentTransactionsFacts.
Import Governor Client.

(** *** Sorting *)

Lemma insertNewest_perm tx l : Permutation (insertNewest tx l) (tx :: l).
Proof.
  induction l as [|y l IH]; simpl; [reflexivity|].
  destruct (timestamp y <=? timestamp tx)%Z; [reflexivity|].
  rewrite IH. apply perm_swap.
Qed.

Lemma sortNewestFirst_perm l : Permutation (sortNewestFirst l) l.
Proof.
  induction l as [|tx l IH]; simpl; [reflexivity|].
  rewrite insertNewest_perm. constructor. exact IH.
Qed.

Lemma insertNewest_sorted tx l : newestFirst l -> newestFirst (insertNewest tx l).
Proof.
  unfold newestFirst. induction 1 as [|y l Hs IH Hall]; simpl.
  - constructor; constructor.
  - destruct (timestamp y <=? timestamp tx)%Z eqn:E.
    + apply Z.leb_le in E. constructor; [constructor; assumption|].
      constructor; [exact E|].
      rewrite List.Forall_forall in *. intros z Hz. specialize (Hall z Hz). lia.
    + apply Z.leb_gt in E. constructor; [exact IH|].
      rewrite List.Forall_forall in *. intros z Hz.
      apply (Permutation_in _ (insertNewest_perm tx l)) in Hz.
      destruct Hz as [<-|Hz]; [lia | apply Hall, Hz].
Qed.

Lemma sortNewestFirst_sorted l : newestFirst (sortNewestFirst l).
Proof.
  induction l as [|tx l IH]; simpl; [constructor | apply insertNewest_sorted, IH].
Qed.

(** *** The on-chain fallback *)

Lemma fallbackRecord_shape sig fetched tx :
  fallbackRecord sig fetched = Some tx ->
  fallbackShaped tx /\ signature tx = si_signature sig.
Proof.
  unfold fallbackRecord.
  destruct fetched as [[ptx|]|e]; try discriminate.
  destruct (pt_meta ptx) as [meta|]; try discriminate.
  destruct (pm_err meta); try discriminate.
  destruct (pt_accountKeys ptx) as [|key keys]; try discriminate.
  intros H. injection H as <-. unfold fallbackShaped. simpl.
  split; [|reflexivity]. repeat split.
  destruct (pm_postTokenBalances meta) as [balances|]; [|constructor].
  induction balances as [|b balances IH]; simpl; [constructor|].
  destruct (String.eqb_spec (tb_mint b) JPG_TOKEN_MINT) as [E|NE]; simpl; [|exact IH].
  constructor; [exact E | exact IH].
Qed.

Lemma getRecentTransactions_shape
    (signatures : outcome (list SignatureInfo))
    (getParsedTransaction : string -> outcome (option ParsedTransaction)) :
  match getRecentTransactions signatures getParsedTransaction with
  | Rejected e =>
      (exists e', signatures = Rejected e')
      /\ e = Error "Failed to fetch real transaction data from Solana blockchain"
  | Resolved txs =>
      exists sigs,
        signatures = Resolved sigs
        /\ length txs <= 10
        /\ newestFirst txs
        /\ Forall (fun tx => fallbackShaped tx
                             /\ In (signature tx) (map si_signature (firstn 10 sigs))) txs
  end.
Proof.
  unfold getRecentTransactions. destruct signatures as [sigs|e'].
  - exists sigs. split; [reflexivity|].
    set (records := dropNull _).
    assert (Hrec : Forall (fun tx => fallbackShaped tx
                     /\ In (signature tx) (map si_signature (firstn 10 sigs))) records
                   /\ length records <= 10).
    { subst records. split.
      - rewrite List.Forall_forall. intros tx Hin.
        apply dropNull_In, in_map_iff in Hin as (sig & Hrec & Hsig).
        apply fallbackRecord_shape in Hrec as [Hshape Hs].
        split; [exact Hshape|]. rewrite Hs. apply in_map. exact Hsig.
      - eapply Nat.le_trans; [apply dropNull_length|].
        rewrite length_map, length_take. lia. }
    destruct Hrec as [Hall Hlen].
    split; [|split; [apply sortNewestFirst_sorted|]].
    + rewrite (Permutation_length (sortNewestFirst_perm records)). exact Hlen.
    + rewrite List.Forall_forall in *. intros tx Hin. apply Hall.
      apply (Permutation_in _ (sortNewestFirst_perm records)). exact Hin.
  - split; [exists e'; reflexivity | reflexivity].
Qed.


(** [getRecentTransactions] rejects exactly when the signature listing
    does.  Otherwise it returns at most 10 records, newest first, each built
    from one of the first 10 signatures listed, each typed "TRANSFER", with
    no description, no native transfer and only tracked-token transfers. *)
Theorem fallback_returns_bare_transfers
    (signatures : outcome (list SignatureInfo))
    (getParsedTransaction : string -> outcome (option ParsedTransaction)) :
  match getRecentTransactions signatures getParsedTransaction with
  | Rejected e =>
      (exists e', signatures = Rejected e')
      /\ e = Error "Failed to fetch real transaction data from Solana blockchain"
  | Resolved txs =>
      exists sigs,
        signatures = Resolved sigs
        /\ length txs <= 10
        /\ newestFirst txs
        /\ Forall (fun tx => fallbackShaped tx
                             /\ In (signature tx) (map si_signature (firstn 10 sigs))) txs
  end.
Proof.
  unfold getRecentTransactions. destruct signatures as [sigs|e'].
  - exists sigs. split; [reflexivity|].
    set (records := dropNull _).
    assert (Hrec : Forall (fun tx => fallbackShaped tx
                     /\ In (signature tx) (map si_signature (firstn 10 sigs))) records
                   /\ length records <= 10).
    { subst records. split.
      - rewrite List.Forall_forall. intros tx Hin.
        apply dropNull_In, in_map_iff in Hin as (sig & Hrec & Hsig).
        apply fallbackRecord_shape in Hrec as [Hshape Hs].
        split; [exact Hshape|]. rewrite Hs. apply in_map. exact Hsig.
      - eapply Nat.le_trans; [apply dropNull_length|].
        rewrite length_map, length_take. lia. }
    destruct Hrec as [Hall Hlen].
    split; [|split; [apply sortNewestFirst_sorted|]].
    + rewrite (Permutation_length (sortNewestFirst_perm records)). exact Hlen.
    + rewrite List.Forall_forall in *. intros tx Hin. apply Hall.
      apply (Permutation_in _ (sortNewestFirst_perm records)). exact Hin.
  - split; [exists e'; reflexivity | reflexivity].
Qed.

(** *** The enhanced query *)


(** *** Reward metrics *)

Lemma nextHour_bounds (currentTime : Z) :
  (currentTime <= nextHour currentTime < currentTime + 3600000)%Z
  /\ (nextHour currentTime mod 3600000 = 0)%Z.
Proof.
  unfold nextHour. change (60 * 60 * 1000)%Z with 3600000%Z.
  pose proof (Z.div_mod (- currentTime) 3600000 ltac:(lia)) as Hdm.
  pose proof (Z.mod_pos_bound (- currentTime) 3600000 ltac:(lia)) as Hb.
  split; [lia|]. apply Z.mod_mul. lia.
Qed.

Lemma addReward_nonneg swapEvent acc tx : (0 <= acc)%Q -> (0 <= addReward swapEvent acc tx)%Q.
Proof.
  intros Hacc. unfold addReward.
  assert (Hadd : forall x k, (0 <= k)%Q -> (0 <= acc + Qabs x * k)%Q).
  { intros x k Hk. change (0 + 0 <= acc + Qabs x * k)%Q.
    apply Qplus_le_compat; [exact Hacc|].
    apply Qmult_le_0_compat; [apply Qabs_nonneg | exact Hk]. }
  destruct (_ && swapEvent tx).
  - destruct (find isJpgTransfer _); [|exact Hacc].
    destruct (find _ _); [|exact Hacc].
    destruct (isTruthy _); apply Hadd; discriminate.
  - destruct (match type tx with Some t => (t =? "TRANSFER")%string | None => false end);
      [|exact Hacc].
    destruct (tokenTransfers tx) as [|transfer rest]; [exact Hacc|].
    destruct (isJpgTransfer transfer); [apply Hadd; discriminate | exact Hacc].
Qed.

Lemma fold_addReward_nonneg swapEvent txs acc :
  (0 <= acc)%Q -> (0 <= fold_left (addReward swapEvent) txs acc)%Q.
Proof.
  revert acc. induction txs as [|tx txs IH]; intros acc Hacc; simpl; [exact Hacc|].
  apply IH, addReward_nonneg, Hacc.
Qed.

(** [getRewardMetrics] fails exactly when the transaction query failed.
    Otherwise the reward pool is never negative, the share is 50, the count
    is the number of transactions read, and the next distribution time is
    the first whole hour at or after the clock reading: a multiple of one
    hour, not before now and less than one hour ahead. *)
Theorem reward_metrics_bounds
    (recentTransactions : outcome (list EnhancedTokenTransaction))
    (swapEvent : EnhancedTokenTransaction -> bool) (currentTime : Z) :
  match getRewardMetrics recentTransactions swapEvent currentTime with
  | Rejected e =>
      (exists e', recentTransactions = Rejected e')
      /\ e = Error "Failed to fetch real reward metrics from Solana blockchain"
  | Resolved m =>
      (exists txs, recentTransactions = Resolved txs /\ rm_totalTransactions m = length txs)
      /\ (0 <= totalRewardPool m)%Q
      /\ distributionPercentage m = 50%Q
      /\ (currentTime <= nextDistributionTime m < currentTime + 3600000)%Z
      /\ (nextDistributionTime m mod 3600000 = 0)%Z
  end.
Proof.
  unfold getRewardMetrics. destruct recentTransactions as [txs|e']; simpl.
  - split; [exists txs; auto|]. split; [apply fold_addReward_nonneg; discriminate|].
    split; [reflexivity | apply nextHour_bounds].
  - split; [exists e'; reflexivity | reflexivity].
Qed.

Lemma addReward_on_fallback swapEvent acc tx :
  fallbackShaped tx -> addReward swapEvent acc tx = addReward (fun _ => false) acc tx.
Proof.
  intros (Ht & _). unfold addReward. rewrite Ht. simpl. reflexivity.
Qed.

(** [getRewardMetrics] reads its transactions from [getRecentTransactions],
    whose records are all typed "TRANSFER": the swap branch is never taken,
    so the metrics do not depend on any swap event, and at most 10
    transactions are counted. *)
Theorem reward_metrics_count_transfers_only
    (signatures : outcome (list SignatureInfo))
    (getParsedTransaction : string -> outcome (option ParsedTransaction))
    (swapEvent : EnhancedTokenTransaction -> bool) (currentTime : Z) :
  let recent := getRecentTransactions signatures getParsedTransaction in
  getRewardMetrics recent swapEvent currentTime
    = getRewardMetrics recent (fun _ => false) currentTime
  /\ match getRewardMetrics recent swapEvent currentTime with
     | Resolved m => rm_totalTransactions m <= 10
     | Rejected _ => True
     end.
Proof.
  intros recent. subst recent.
  pose proof (getRecentTransactions_shape signatures getParsedTransaction) as H.
  destruct (getRecentTransactions signatures getParsedTransaction) as [txs|e]; simpl;
    [|split; [reflexivity | exact I]].
  destruct H as (sigs & _ & Hlen & _ & Hall).
  split; [|exact Hlen].
  f_equal. f_equal.
  assert (Hshape : Forall fallbackShaped txs).
  { rewrite List.Forall_forall in *. intros tx Hin. apply (Hall tx Hin). }
  clear Hall Hlen. generalize 0%Q.
  induction Hshape as [|tx txs Htx _ IH]; intros acc; simpl; [reflexivity|].
  rewrite (addReward_on_fallback swapEvent acc tx Htx). apply IH.
Qed.

End RecentTransactionsFacts.

Section WalletLookupFacts.
Import Governor Client.

(** *** Wallet lookup *)

Lemma isPositive_spec (x : Q) : isPositive x = true <-> (0 < x)%Q.
Proof.
  unfold isPositive. rewrite negb_true_iff. split.
  - intros H. apply Qnot_le_lt. intros Hle. apply Qle_bool_iff in Hle. congruence.
  - intros H. destruct (Qle_bool x 0) eqn:E; [|reflexivity].
    apply Qle_bool_iff in E. exfalso. apply (Qlt_not_le _ _ H E).
Qed.

Lemma sum_of_positives {A} (f : A -> Q) (l : list A) :
  forall acc, (0 <= acc)%Q -> Forall (fun x => (0 < f x)%Q) l -> l <> [] ->
  (0 < fold_left (fun sum x => sum + f x)%Q l acc)%Q.
Proof.
  induction l as [|x l IH]; intros acc Hacc Hall Hne; [contradiction|].
  inversion Hall as [|? ? Hx Hl]; subst. simpl.
  assert (Hpos : (0 < acc + f x)%Q).
  { apply Qlt_le_trans with (0 + f x)%Q.
    - rewrite Qplus_0_l. exact Hx.
    - apply Qplus_le_compat; [exact Hacc | apply Qle_refl]. }
  destruct l as [|y l]; [exact Hpos|].
  apply IH; [apply Qlt_le_weak, Hpos | exact Hl | discriminate].
Qed.

(** A wallet is reported only when it holds the token: the accounts listed
    are exactly its token accounts with a strictly positive balance (in the
    order upstream lists them), there is at least one, and the balance
    reported is their sum, hence strictly positive. *)
Theorem wallet_info_counts_positive_accounts
    (address : string) (value : list RawTokenAccount) supplyResult topHolders
    (transactions : list EnhancedTokenTransaction) (info : WalletInfo) :
  getWalletInfo address (Resolved (Some value)) supplyResult topHolders transactions
    = Some info ->
  wi_tokenAccounts info
    = List.filter (fun acc => isPositive (ta_balance acc))
        (map (fun account => {| ta_address := rta_pubkey account;
                                ta_balance := orNumber (rta_uiAmount account) 0%Q;
                                ta_owner := rta_owner account |}) value)
  /\ wi_tokenAccounts info <> []
  /\ Forall (fun acc => (0 < ta_balance acc)%Q) (wi_tokenAccounts info)
  /\ wi_balance info = sumOf ta_balance (wi_tokenAccounts info)
  /\ (0 < wi_balance info)%Q.
Proof.
  unfold getWalletInfo. destruct value as [|a value]; [discriminate|].
  set (accounts := List.filter _ _).
  destruct (length accounts =? 0) eqn:El; [discriminate|].
  destruct supplyResult as [sv|e]; [|discriminate].
  intros H. injection H as <-. simpl.
  assert (Hne : accounts <> []).
  { intros E. rewrite E in El. discriminate. }
  assert (Hall : Forall (fun acc => (0 < ta_balance acc)%Q) accounts).
  { subst accounts. rewrite List.Forall_forall. intros acc Hin.
    apply filter_In in Hin as [_ Hp]. apply isPositive_spec, Hp. }
  split; [reflexivity|]. split; [exact Hne|]. split; [exact Hall|].
  split; [reflexivity|].
  unfold sumOf. apply sum_of_positives; [apply Qle_refl | exact Hall | exact Hne].
Qed.

Lemma wallet_info_counts_positive_accounts_witness :
  match getWalletInfo Samples.walletA (Resolved (Some Samples.sampleTokenAccounts))
          (Resolved Samples.sampleSupplyValue) Samples.sampleHolders [] with
  | Some info => (0 < wi_balance info)%Q /\ wi_tokenAccounts info <> []
  | None => False
  end.
Proof.
  destruct (getWalletInfo Samples.walletA (Resolved (Some Samples.sampleTokenAccounts))
              (Resolved Samples.sampleSupplyValue) Samples.sampleHolders [])
    as [info|] eqn:E; [|discriminate E].
  destruct (wallet_info_counts_positive_accounts _ _ _ _ _ _ E) as (_ & H2 & _ & _ & H5).
  split; [exact H5 | exact H2].
Defined.

Lemma findIndexFrom_spec {A} (p : A -> bool) (l : list A) (i : Z) :
  (exists before x after,
      l = before ++ x :: after /\ p x = true
      /\ Forall (fun y => p y = false) before
      /\ findIndexFrom p l i = (i + Z.of_nat (length before))%Z)
  \/ (Forall (fun y => p y = false) l /\ findIndexFrom p l i = (-1)%Z).
Proof.
  revert i. induction l as [|x l IH]; intros i; simpl.
  - right. split; [constructor | reflexivity].
  - destruct (p x) eqn:Ex.
    + left. exists [], x, l. simpl. repeat split; [exact Ex | constructor | lia].
    + destruct (IH (i + 1)%Z) as [(before & y & after & -> & Hy & Hb & Hi)|[Hall Hi]].
      * left. exists (x :: before), y, after. simpl.
        repeat split; [exact Hy | constructor; assumption | rewrite Hi; lia].
      * right. split; [constructor; assumption | exact Hi].
Qed.

Lemma getWalletInfo_rank
    (address : string) rpcResult supplyResult (topHolders : list TopHolder)
    (transactions : list EnhancedTokenTransaction) (info : WalletInfo) :
  getWalletInfo address rpcResult supplyResult topHolders transactions = Some info ->
  match wi_rank info with
  | Some rank =>
      exists before holder after,
        topHolders = before ++ holder :: after
        /\ th_address holder = address
        /\ Forall (fun h => th_address h <> address) before
        /\ rank = (Z.of_nat (length before) + 1)%Z
        /\ wi_isTopHolder info = (rank <=? 25)%Z
  | None =>
      Forall (fun h => th_address h <> address) topHolders
      /\ wi_isTopHolder info = false
  end.
Proof.
  unfold getWalletInfo.
  destruct rpcResult as [[[|a value]|]|e]; try discriminate.
  destruct (length _ =? 0); [discriminate|].
  destruct supplyResult as [sv|e]; [|discriminate].
  intros H. injection H as <-. simpl. unfold findIndex.
  assert (Hneq : forall l, Forall (fun y => (th_address y =? address)%string = false) l ->
                           Forall (fun h => th_address h <> address) l).
  { intros l Hl. rewrite List.Forall_forall in *. intros h Hin.
    apply String.eqb_neq, Hl, Hin. }
  destruct (findIndexFrom_spec (fun holder => (th_address holder =? address)%string)
              topHolders 0) as [(before & x & after & -> & Hx & Hb & ->)|[Hall ->]].
  - apply String.eqb_eq in Hx.
    replace (0 <? 0 + Z.of_nat (length before) + 1)%Z with true
      by (symmetry; apply Z.ltb_lt; lia).
    exists before, x, after. simpl.
    split; [reflexivity|]. split; [exact Hx|]. split; [apply Hneq, Hb|].
    split; [lia | reflexivity].
  - simpl. split; [apply Hneq, Hall | reflexivity].
Qed.

(** The rank reported is the 1-based position of the first top holder whose
    address is the wallet's, and the wallet is flagged a top holder exactly
    when that position is within 25; a wallet that is not in the list has no
    rank and is not flagged. *)
Theorem wallet_rank_is_first_match
    (address : string) rpcResult supplyResult (topHolders : list TopHolder)
    (transactions : list EnhancedTokenTransaction) (info : WalletInfo) :
  getWalletInfo address rpcResult supplyResult topHolders transactions = Some info ->
  match wi_rank info with
  | Some rank =>
      exists before holder after,
        topHolders = before ++ holder :: after
        /\ th_address holder = address
        /\ Forall (fun h => th_address h <> address) before
        /\ rank = (Z.of_nat (length before) + 1)%Z
        /\ wi_isTopHolder info = (rank <=? 25)%Z
  | None =>
      Forall (fun h => th_address h <> address) topHolders
      /\ wi_isTopHolder info = false
  end.
Proof.
  unfold getWalletInfo.
  destruct rpcResult as [[[|a value]|]|e]; try discriminate.
  destruct (length _ =? 0); [discriminate|].
  destruct supplyResult as [sv|e]; [|discriminate].
  intros H. injection H as <-. simpl. unfold findIndex.
  assert (Hneq : forall l, Forall (fun y => (th_address y =? address)%string = false) l ->
                           Forall (fun h => th_address h <> address) l).
  { intros l Hl. rewrite List.Forall_forall in *. intros h Hin.
    apply String.eqb_neq, Hl, Hin. }
  destruct (findIndexFrom_spec (fun holder => (th_address holder =? address)%string)
              topHolders 0) as [(before & x & after & -> & Hx & Hb & ->)|[Hall ->]].
  - apply String.eqb_eq in Hx.
    replace (0 <? 0 + Z.of_nat (length before) + 1)%Z with true
      by (symmetry; apply Z.ltb_lt; lia).
    exists before, x, after. simpl.
    split; [reflexivity|]. split; [exact Hx|]. split; [apply Hneq, Hb|].
    split; [lia | reflexivity].
  - simpl. split; [apply Hneq, Hall | reflexivity].
Qed.

Lemma wallet_rank_is_first_match_witness :
  match getWalletInfo "WalletD" (Resolved (Some Samples.sampleTokenAccounts))
          (Resolved Samples.sampleSupplyValue)
          (getTopHolders (Resolved Samples.sampleAccounts) (Resolved Samples.sampleSupplyValue))
          [] with
  | Some info => wi_rank info = Some 2%Z /\ wi_isTopHolder info = true
  | None => False
  end.
Proof.
  destruct (getWalletInfo "WalletD" (Resolved (Some Samples.sampleTokenAccounts))
              (Resolved Samples.sampleSupplyValue)
              (getTopHolders (Resolved Samples.sampleAccounts)
                 (Resolved Samples.sampleSupplyValue)) [])
    as [info|] eqn:E; [|discriminate E].
  pose proof (wallet_rank_is_first_match _ _ _ _ _ _ E) as H.
  assert (Hr : wi_rank info = Some 2%Z) by (injection E as <-; reflexivity).
  rewrite Hr in H. destruct H as (_ & _ & _ & _ & _ & _ & _ & Htop).
  split; [exact Hr | rewrite Htop; reflexivity].
Defined.

(** Looked up against the list [getTopHolders] returns, which has at most
    25 entries, a wallet is flagged a top holder exactly when it has a rank,
    and a rank is always between 1 and 25. *)
Theorem ranked_wallet_is_a_top_holder
    (address : string) rpcResult supplyResult largestAccounts holdersSupply
    (transactions : list EnhancedTokenTransaction) (info : WalletInfo) :
  getWalletInfo address rpcResult supplyResult
    (getTopHolders largestAccounts holdersSupply) transactions = Some info ->
  match wi_rank info with
  | Some rank => (1 <= rank <= 25)%Z /\ wi_isTopHolder info = true
  | None => wi_isTopHolder info = false
  end.
Proof.
  intros H. pose proof (getWalletInfo_rank _ _ _ _ _ _ H) as Hrank.
  assert (Hlen : length (getTopHolders largestAccounts holdersSupply) <= 25).
  { unfold getTopHolders. destruct largestAccounts as [accounts|e]; [|simpl; lia].
    destruct holdersSupply as [sv|e]; [|simpl; lia].
    eapply Nat.le_trans; [apply dropNull_length|]. rewrite length_map, length_take. lia. }
  destruct (wi_rank info) as [rank|]; [|tauto].
  destruct Hrank as (before & holder & after & Heq & _ & _ & -> & Htop).
  rewrite Heq, length_app in Hlen. simpl in Hlen.
  split; [lia|]. rewrite Htop. apply Z.leb_le. lia.
Qed.

Lemma ranked_wallet_is_a_top_holder_witness :
  match getWalletInfo "WalletD" (Resolved (Some Samples.sampleTokenAccounts))
          (Resolved Samples.sampleSupplyValue)
          (getTopHolders (Resolved Samples.sampleAccounts) (Resolved Samples.sampleSupplyValue))
          [] with
  | Some info => wi_rank info = Some 2%Z /\ wi_isTopHolder info = true
  | None => False
  end.
Proof.
  destruct (getWalletInfo "WalletD" (Resolved (Some Samples.sampleTokenAccounts))
              (Resolved Samples.sampleSupplyValue)
              (getTopHolders (Resolved Samples.sampleAccounts)
                 (Resolved Samples.sampleSupplyValue)) [])
    as [info|] eqn:E; [|discriminate E].
  pose proof (ranked_wallet_is_a_top_holder _ _ _ _ _ _ _ E) as H.
  assert (Hr : wi_rank info = Some 2%Z) by (injection E as <-; reflexivity).
  rewrite Hr in H. split; [exact Hr | apply H].
Defined.

(** With a non-zero supply, the percentage is the balance over the supply
    in whole tokens times 100, and the projected daily reward is 12.5 times
    the wallet's balance, whatever the supply. *)
Theorem wallet_daily_reward_is_proportional
    (address : string) rpcResult (sv : SupplyValue) topHolders
    (transactions : list EnhancedTokenTransaction) (info : WalletInfo) :
  getWalletInfo address rpcResult (Resolved sv) topHolders transactions = Some info ->
  ~ (inTokens sv == 0)%Q ->
  (wi_percentage info == wi_balance info / inTokens sv * 100)%Q
  /\ (wi_expectedDailyRewards info == wi_balance info * (25 # 2))%Q.
Proof.
  unfold getWalletInfo.
  destruct rpcResult as [[[|a value]|]|e]; try discriminate.
  destruct (length _ =? 0); [discriminate|].
  intros H Hnz. injection H as <-. simpl.
  split; [reflexivity|].
  unfold DAILY_TURNOVER_RATE, SWAP_FEE_RATE, LP_FEE_SHARE. field. exact Hnz.
Qed.

Lemma wallet_daily_reward_is_proportional_witness :
  match getWalletInfo Samples.walletA (Resolved (Some Samples.sampleTokenAccounts))
          (Resolved Samples.sampleSupplyValue) Samples.sampleHolders [] with
  | Some info => (wi_expectedDailyRewards info == wi_balance info * (25 # 2))%Q
  | None => False
  end.
Proof.
  destruct (getWalletInfo Samples.walletA (Resolved (Some Samples.sampleTokenAccounts))
              (Resolved Samples.sampleSupplyValue) Samples.sampleHolders [])
    as [info|] eqn:E; [|discriminate E].
  apply (wallet_daily_reward_is_proportional _ _ _ _ _ _ E). discriminate.
Defined.

(** *** Token metadata *)

Lemma orString_filled (s : option string) (dflt : string) :
  dflt <> "" -> orString s dflt <> "".
Proof. intros H. destruct s as [[|c s]|]; simpl; [exact H | discriminate | exact H]. Qed.

Lemma orDecimals_nonzero (d : option Z) : orDecimals d <> 0%Z.
Proof.
  unfold orDecimals. destruct d as [v|]; [|discriminate].
  destruct (Z.eqb_spec v 0); [discriminate | assumption].
Qed.

Lemma refreshMetadata_shape (now : Z) (up : Upstream) :
  let '(m, c, reqs) := refreshMetadata now up in
  filledIn m /\ c = mkCache (Some m) now
  /\ (reqs = [TokenMetadataFetch] \/ reqs = [TokenMetadataFetch; TokenSupplyRpc]).
Proof.
  assert (Hhard : filledIn hardcodedFallback) by (repeat split; discriminate).
  assert (Hrpc : forall sv, filledIn (rpcFallback sv)).
  { intros sv. repeat split; try discriminate. apply orDecimals_nonzero. }
  unfold refreshMetadata.
  destruct (metadataResponse up) as [response|e]; [|auto].
  destruct (body response) as [e|[entry|]]; [auto | |].
  - destruct (onChainMetadata entry) as [[onChain|]|].
    + split; [|auto]. unfold filledIn, fromUpstream. simpl.
      split; [apply orString_filled; discriminate|].
      split; [apply orString_filled; discriminate|].
      split; [apply orDecimals_nonzero|].
      apply orString_filled, orString_filled. discriminate.
    + auto.
    + destruct (tokenInfo up); auto.
  - destruct (tokenInfo up); auto.
Qed.

Lemma cacheHit_cached (c : MetadataCache) (now : Z) (m : TokenMetadata) :
  cacheHit c now = Some m -> tokenMetadataCache c = Some m.
Proof.
  unfold cacheHit. destruct (tokenMetadataCache c) as [m'|]; [|discriminate].
  destruct (_ <? _)%Z; [congruence | discriminate].
Qed.

Lemma startOf_entered (call : nat) (now : Z) (flights : list (nat * Z)) :
  startOf call flights = None ->
  startOf call (flights ++ [(call, now)]) = Some now
  /\ landed call (flights ++ [(call, now)]) = flights.
Proof.
  induction flights as [|[c t] flights IH]; simpl.
  - rewrite Nat.eqb_refl. auto.
  - destruct (c =? call)%nat; [discriminate|].
    intros H. destruct (IH H) as [-> ->]. auto.
Qed.

Lemma resume_shape (s : MetadataStore) (call : nat) (now : Z) (up : Upstream) :
  startOf call (inFlight s) = Some now ->
  let '(s1, o1) := getTokenMetadataResume s call up in
  exists m,
    filledIn m /\ returned o1 = Some m
    /\ s1 = {| cache := mkCache (Some m) now; inFlight := landed call (inFlight s) |}
    /\ (issued o1 = [] \/ issued o1 = [TokenSupplyRpc]).
Proof.
  intros H. unfold getTokenMetadataResume. rewrite H.
  pose proof (refreshMetadata_shape now up) as Hshape.
  destruct (refreshMetadata now up) as [[m c] reqs].
  destruct Hshape as (Hm & -> & Hreqs).
  exists m. split; [exact Hm|]. split; [reflexivity|]. split; [reflexivity|].
  destruct Hreqs as [-> | ->]; simpl; auto.
Qed.

(** [getTokenMetadata] does not share a request between callers.  A call
    that finds no fresh cache posts the metadata request and leaves the
    cache as it is, so a caller that enters while it waits, and finds no
    fresh cache either, posts a request of its own.  Whatever upstream
    answers, the call then returns a record, has issued at most one more
    request (the RPC one), and leaves the cache holding that record stamped
    with the reading it took on entry: the caller that enters next, less
    than five minutes after that reading, is served that record without any
    request. *)
Theorem overlapping_metadata_calls_each_fetch
    (s : MetadataStore) (call : nat) (now : Z) (up : Upstream) :
  cacheHit (cache s) now = None ->
  startOf call (inFlight s) = None ->
  let '(s1, o1) := getTokenMetadataStart s call now in
  o1 = {| returned := None; issued := [TokenMetadataFetch] |}
  /\ cache s1 = cache s
  /\ (forall call' now',
        cacheHit (cache s) now' = None ->
        snd (getTokenMetadataStart s1 call' now')
        = {| returned := None; issued := [TokenMetadataFetch] |})
  /\ let '(s2, o2) := getTokenMetadataResume s1 call up in
     exists m,
       returned o2 = Some m
       /\ (issued o2 = [] \/ issued o2 = [TokenSupplyRpc])
       /\ s2 = {| cache := mkCache (Some m) now; inFlight := inFlight s |}
       /\ forall call' t,
            (t - now < CACHE_DURATION)%Z ->
            getTokenMetadataStart s2 call' t
            = (s2, {| returned := Some m; issued := [] |}).
Proof.
  intros Hmiss Hnew. unfold getTokenMetadataStart at 1. rewrite Hmiss.
  split; [reflexivity|]. split; [reflexivity|]. split.
  - intros call' now' Hmiss'. unfold getTokenMetadataStart. simpl.
    rewrite Hmiss'. reflexivity.
  - destruct (startOf_entered call now (inFlight s) Hnew) as [Hstart Hland].
    pose proof (resume_shape
                  {| cache := cache s; inFlight := inFlight s ++ [(call, now)] |}
                  call now up Hstart) as H.
    destruct (getTokenMetadataResume _ call up) as [s2 o2].
    destruct H as (m & _ & Hret & -> & Hreqs).
    exists m. split; [exact Hret|]. split; [exact Hreqs|].
    simpl. rewrite Hland. split; [reflexivity|].
    intros call' t Ht. unfold getTokenMetadataStart, cacheHit. simpl.
    apply Z.ltb_lt in Ht. rewrite Ht. reflexivity.
Qed.

Lemma overlapping_metadata_calls_each_fetch_witness :
  let '(s1, o1) := getTokenMetadataStart initialStore 1 0 in
  issued o1 = [TokenMetadataFetch]
  /\ issued (snd (getTokenMetadataStart s1 2 1)) = [TokenMetadataFetch]
  /\ let '(s2, o2) := getTokenMetadataResume s1 1 Samples.answering in
     exists m, returned o2 = Some m
               /\ getTokenMetadataStart s2 3 10000
                  = (s2, {| returned := Some m; issued := [] |}).
Proof.
  pose proof (overlapping_metadata_calls_each_fetch initialStore 1 0 Samples.answering)
    as H.
  simpl in H. simpl.
  destruct H as (Ho1 & _ & Hsecond & m & Hret & _ & _ & Hnext);
    [reflexivity | reflexivity |].
  split; [exact (f_equal issued Ho1)|].
  split; [exact (f_equal issued (Hsecond 2%nat 1%Z eq_refl))|].
  exists m. split; [exact Hret|].
  apply Hnext. unfold CACHE_DURATION. lia.
Defined.

Lemma metadataRun_filledIn (history : list metadataEvent) :
  forall s,
    (forall m, tokenMetadataCache (cache s) = Some m -> filledIn m) ->
    Forall (fun o => match returned o with Some m => filledIn m | None => True end)
           (snd (metadataRun s history)).
Proof.
  induction history as [|e history IH]; intros s Hs; simpl; [constructor|].
  assert (Hstep : let '(s1, o) := metadataStep s e in
                  match returned o with Some m => filledIn m | None => True end
                  /\ forall m, tokenMetadataCache (cache s1) = Some m -> filledIn m).
  { destruct e as [call now | call up]; simpl.
    - unfold getTokenMetadataStart.
      destruct (cacheHit (cache s) now) as [m|] eqn:Ehit; simpl.
      + split; [|exact Hs]. apply Hs, (cacheHit_cached _ now), Ehit.
      + split; [exact I | exact Hs].
    - destruct (startOf call (inFlight s)) as [now|] eqn:Estart.
      + pose proof (resume_shape s call now up Estart) as H.
        destruct (getTokenMetadataResume s call up) as [s1 o].
        destruct H as (m & Hm & -> & -> & _). simpl.
        split; [exact Hm|]. intros m' E. injection E as <-. exact Hm.
      + unfold getTokenMetadataResume. rewrite Estart. simpl.
        split; [exact I | exact Hs]. }
  destruct (metadataStep s e) as [s1 o]. destruct Hstep as [Ho Hs1].
  specialize (IH s1 Hs1).
  destruct (metadataRun s1 history) as [s2 os]. simpl in *.
  constructor; assumption.
Qed.

(** From the empty cache on, whatever the order in which callers enter
    [getTokenMetadata] and upstream answers them, no call ever returns
    metadata with an empty name, symbol or description or with zero
    decimals: every missing or empty upstream member is replaced by its
    default. *)
Theorem metadata_is_always_filled_in (history : list metadataEvent) :
  Forall (fun o => match returned o with Some m => filledIn m | None => True end)
         (snd (metadataRun initialStore history)).
Proof. apply metadataRun_filledIn. simpl. discriminate. Qed.

End WalletLookupFacts.

(* ===================================================================== *)
(** ** More on the store and what is displayed from it *)
(* ===================================================================== *)

Section WindowFacts.
Import Client Store Display.

Lemma shown_iff_meaningful (tx : EnhancedTokenTransaction) :
  isShown tx = (hasTransfers tx && isDescribed tx).
Proof.
  unfold isShown, detailsAreNull, unknownType, noDescription, noTransfers,
    hasTransfers, isDescribed.
  destruct (type tx) as [t|]; destruct (description tx) as [d|];
    destruct (length (tokenTransfers tx)); destruct (length (nativeTransfers tx)); simpl;
    repeat match goal with
           | |- context [String.eqb ?a ?b] => destruct (String.eqb a b); simpl
           end; reflexivity.
Qed.

Lemma window_meaningful w :
  Window w -> Forall (fun tx => hasTransfers tx = true /\ isDescribed tx = true) w.
Proof.
  induction 1 as [|txs prev Hw IH]; [constructor|].
  destruct (merge_shape txs prev) as (added & kept & -> & [rest1 Hk] & [rest2 Ha]).
  apply Forall_app. split.
  - rewrite List.Forall_forall. intros tx Hin.
    assert (Hv : In tx (validNewTransactions txs prev))
      by (rewrite Ha; apply in_or_app; left; exact Hin).
    apply validNew_In in Hv. tauto.
  - rewrite Hk in IH. apply Forall_app in IH. tauto.
Qed.

(** Every record the store ever holds is meaningful (it has a transfer, a
    type other than "UNKNOWN" and a non-blank description), so the
    transaction feed, which filters the window again and asks
    [getTransactionDetails] for each record, renders every record of the
    window: its filter removes nothing. *)
Theorem feed_shows_the_whole_window (w : list EnhancedTokenTransaction) :
  Window w ->
  Forall (fun tx => hasTransfers tx = true /\ isDescribed tx = true
                    /\ detailsAreNull tx = false) w
  /\ validTransactions w = w.
Proof.
  intros Hw. pose proof (window_meaningful w Hw) as Hall.
  assert (Hshown : Forall (fun tx => isShown tx = true) w).
  { rewrite List.Forall_forall in *. intros tx Hin. destruct (Hall tx Hin) as [H1 H2].
    rewrite shown_iff_meaningful, H1, H2. reflexivity. }
  split.
  - rewrite List.Forall_forall in *. intros tx Hin. destruct (Hall tx Hin) as [H1 H2].
    split; [exact H1|]. split; [exact H2|].
    specialize (Hshown tx Hin). unfold isShown in Hshown.
    destruct (unknownType tx); [discriminate|].
    destruct (noDescription tx); [discriminate|].
    destruct (noTransfers tx); [discriminate|].
    apply negb_true_iff, Hshown.
  - unfold validTransactions. clear Hall Hw.
    induction Hshown as [|tx w Htx _ IH]; simpl; [reflexivity|].
    rewrite Htx, IH. reflexivity.
Qed.

Lemma feed_shows_the_whole_window_witness :
  let w := mergeTransactions [Samples.swapTx "sig1"; Samples.otherTx "sig2"] [] in
  Window w /\ map signature w = ["sig1"] /\ validTransactions w = w.
Proof.
  intros w.
  assert (Hw : Window w) by (apply WindowMerge, WindowInitial).
  split; [exact Hw|]. split; [vm_compute; reflexivity|].
  apply (feed_shows_the_whole_window w Hw).
Defined.

(** A poll answered by the on-chain fallback never changes the window: its
    records carry no description, so none passes the store's filter. *)
Theorem fallback_poll_leaves_window_unchanged
    (signatures : outcome (list SignatureInfo))
    (getParsedTransaction : string -> outcome (option ParsedTransaction))
    (prev : list EnhancedTokenTransaction) :
  match getRecentTransactions signatures getParsedTransaction with
  | Resolved txs => mergeTransactions txs prev = prev
  | Rejected _ => True
  end.
Proof.
  pose proof (getRecentTransactions_shape signatures getParsedTransaction) as H.
  destruct (getRecentTransactions signatures getParsedTransaction) as [txs|e]; [|exact I].
  destruct H as (sigs & _ & _ & _ & Hall).
  rewrite merge_unfold.
  destruct (validNewTransactions txs prev) as [|tx l] eqn:E; [reflexivity|].
  assert (Hin : In tx (validNewTransactions txs prev)) by (rewrite E; left; reflexivity).
  apply validNew_In in Hin as (Hin & _ & _ & Hd).
  rewrite List.Forall_forall in Hall. destruct (Hall tx Hin) as [(_ & Hnone & _) _].
  unfold isDescribed in Hd. rewrite Hnone in Hd.
  rewrite andb_false_r in Hd. discriminate.
Qed.

(** Merging the same poll result a second time changes nothing, as long as
    the first merge evicted no record (the new records and the window fit in
    the 50 entries together). *)
Theorem merging_a_poll_twice_is_merging_it_once
    (txs prev : list EnhancedTokenTransaction) :
  length (validNewTransactions txs prev) + length prev <= 50 ->
  mergeTransactions txs (mergeTransactions txs prev) = mergeTransactions txs prev.
Proof.
  intros Hfit.
  assert (Hfirst : mergeTransactions txs prev = validNewTransactions txs prev ++ prev).
  { rewrite merge_unfold. destruct (validNewTransactions txs prev) eqn:E; [reflexivity|].
    rewrite <- E in Hfit |- *. apply firstn_all2. rewrite length_app. exact Hfit. }
  rewrite Hfirst. rewrite (merge_unfold txs).
  destruct (validNewTransactions txs (validNewTransactions txs prev ++ prev))
    as [|tx l] eqn:E; [reflexivity|].
  assert (Hin : In tx (validNewTransactions txs (validNewTransactions txs prev ++ prev)))
    by (rewrite E; left; reflexivity).
  apply validNew_In in Hin as (Hin & Hnew & Htr & Hde).
  exfalso. apply Hnew. rewrite map_app. apply in_or_app.
  destruct (in_dec string_dec (signature tx) (map signature prev)) as [Hp|Hp];
    [right; exact Hp|].
  left. apply in_map. apply validNew_In. tauto.
Qed.

Lemma merging_a_poll_twice_is_merging_it_once_witness :
  let txs := [Samples.swapTx "sig2"; Samples.swapTx "sig1"] in
  let prev := [Samples.swapTx "sig1"] in
  length (validNewTransactions txs prev) + length prev <= 50
  /\ mergeTransactions txs (mergeTransactions txs prev) = mergeTransactions txs prev.
Proof.
  intros txs prev.
  assert (H : length (validNewTransactions txs prev) + length prev <= 50)
    by (vm_compute; lia).
  split; [exact H|]. apply (merging_a_poll_twice_is_merging_it_once txs prev H).
Defined.

End WindowFacts.

Section ComponentFacts.
Import Client Store.

Lemma step_keeps_window (c : Component) (e : event) :
  Window (transactions (state c)) -> Window (transactions (state (step c e))).
Proof.
  intros Hw. destruct e as [| |isInitial result|result|]; simpl.
  - destruct (pollingTimer c); [|exact Hw]. exact Hw.
  - destruct (staticTimer c); exact Hw.
  - destruct (existsb _ _); [|exact Hw].
    unfold fetchTransactionsResume. simpl.
    destruct (isMounted c); simpl; [|exact Hw].
    destruct result as [txs|err].
    + destruct txs as [|tx txs']; destruct isInitial; simpl;
        apply WindowMerge, Hw.
    + destruct isInitial; exact Hw.
  - destruct (pendingStatic c); [exact Hw|].
    destruct result as [[[[m s] h] md]|err]; exact Hw.
  - exact Hw.
Qed.

(** Whatever the timers and the network deliver after mount, the window
    the store exposes is one built by merges from the empty window: it never
    holds more than 50 records and only meaningful ones. *)
Theorem store_window_stays_bounded (es : list event) :
  let w := transactions (state (run mounted es)) in
  Window w
  /\ length w <= 50
  /\ Forall (fun tx => hasTransfers tx = true /\ isDescribed tx = true) w.
Proof.
  intros w. subst w.
  assert (Hw : Window (transactions (state (run mounted es)))).
  { unfold run. generalize mounted (WindowInitial : Window (transactions (state mounted))).
    induction es as [|e es IH]; intros c Hc; simpl; [exact Hc|].
    apply IH, step_keeps_window, Hc. }
  split; [exact Hw|]. split; [apply window_length, Hw | apply window_meaningful, Hw].
Qed.

Lemma unmounted_step (c : Component) (e : event) :
  isMounted c = false -> pollingTimer c = false -> staticTimer c = false ->
  let c' := step c e in
  isMounted c' = false /\ pollingTimer c' = false /\ staticTimer c' = false
  /\ transactions (state c') = transactions (state c)
  /\ lastSignature c' = lastSignature c
  /\ length (pendingTx c') <= length (pendingTx c)
  /\ pendingStatic c' <= pendingStatic c.
Proof.
  intros Hm Hp Hs.
  assert (Hstay : isMounted c = false /\ pollingTimer c = false /\ staticTimer c = false
                  /\ transactions (state c) = transactions (state c)
                  /\ lastSignature c = lastSignature c
                  /\ length (pendingTx c) <= length (pendingTx c)
                  /\ pendingStatic c <= pendingStatic c)
    by (repeat split; auto; lia).
  destruct e as [| |isInitial result|result|]; simpl.
  - rewrite Hp. exact Hstay.
  - rewrite Hs. exact Hstay.
  - destruct (existsb _ _); [|exact Hstay].
    unfold fetchTransactionsResume. simpl. rewrite Hm. simpl.
    assert (Hrm : length (removeFirst isInitial (pendingTx c)) <= length (pendingTx c)).
    { clear. induction (pendingTx c) as [|x l IH]; simpl; [lia|].
      destruct (Bool.eqb x isInitial); simpl; lia. }
    repeat split; auto; lia.
  - destruct (pendingStatic c) as [|n] eqn:En; [repeat split; auto; lia|].
    destruct result as [[[[m s] h] md]|err]; simpl; repeat split; auto; lia.
  - repeat split; auto; lia.
Qed.

(** Once the provider is unmounted it stays so: whatever arrives later, no
    timer is live again, no poll and no refresh is started (the requests in
    flight only decrease), and the transaction window is never written
    again. *)
Theorem unmounted_store_starts_nothing (c : Component) (es : list event) :
  let c' := run (unmount c) es in
  isMounted c' = false /\ pollingTimer c' = false /\ staticTimer c' = false
  /\ transactions (state c') = transactions (state c)
  /\ length (pendingTx c') <= length (pendingTx c)
  /\ pendingStatic c' <= pendingStatic c.
Proof.
  intros c'. subst c'. unfold run.
  assert (H : forall d,
             isMounted d = false -> pollingTimer d = false -> staticTimer d = false ->
             let d' := fold_left step es d in
             isMounted d' = false /\ pollingTimer d' = false /\ staticTimer d' = false
             /\ transactions (state d') = transactions (state d)
             /\ length (pendingTx d') <= length (pendingTx d)
             /\ pendingStatic d' <= pendingStatic d).
  { induction es as [|e es IH]; intros d Hm Hp Hs; simpl; [repeat split; auto; lia|].
    destruct (unmounted_step d e Hm Hp Hs) as (Hm' & Hp' & Hs' & Ht & _ & Hpt & Hps).
    destruct (IH (step d e) Hm' Hp' Hs') as (H1 & H2 & H3 & H4 & H5 & H6).
    repeat split; auto; try congruence; lia. }
  apply (H (unmount c)); reflexivity.
Qed.

End ComponentFacts.

Section CountdownFacts.
Import Client Display.

Lemma countdownFields_spec (diff : Z) :
  (0 < diff)%Z ->
  let '(hours, minutes, seconds) := countdownFields diff in
  (0 <= hours /\ 0 <= minutes < 60 /\ 0 <= seconds < 60
   /\ hours * 3600 + minutes * 60 + seconds = diff / 1000)%Z.
Proof.
  intros Hpos. unfold countdownFields.
  change (1000 * 60 * 60)%Z with 3600000%Z. change (1000 * 60)%Z with 60000%Z.
  pose proof (Z.div_mod diff 3600000 ltac:(lia)) as H1.
  pose proof (Z.mod_pos_bound diff 3600000 ltac:(lia)) as B1.
  pose proof (Z.div_mod (diff mod 3600000) 60000 ltac:(lia)) as H2.
  pose proof (Z.mod_pos_bound (diff mod 3600000) 60000 ltac:(lia)) as B2.
  pose proof (Z.div_mod diff 60000 ltac:(lia)) as H3.
  pose proof (Z.mod_pos_bound diff 60000 ltac:(lia)) as B3.
  pose proof (Z.div_mod (diff mod 60000) 1000 ltac:(lia)) as H4.
  pose proof (Z.mod_pos_bound (diff mod 60000) 1000 ltac:(lia)) as B4.
  pose proof (Z.div_mod diff 1000 ltac:(lia)) as H5.
  pose proof (Z.mod_pos_bound diff 1000 ltac:(lia)) as B5.
  assert (Hmm : ((diff mod 3600000) mod 60000 = diff mod 60000)%Z)
    by (apply Z.mod_mod_divide; exists 60%Z; reflexivity).
  assert (Hms : ((diff mod 60000) mod 1000 = diff mod 1000)%Z)
    by (apply Z.mod_mod_divide; exists 60%Z; reflexivity).
  split; [apply Z.div_pos; lia|].
  split; [split; [apply Z.div_pos; lia | apply Z.div_lt_upper_bound; lia]|].
  split; [split; [apply Z.div_pos; lia | apply Z.div_lt_upper_bound; lia]|].
  rewrite Hmm in H2. rewrite Hms in H4. lia.
Qed.

(** The countdown of the reward card, run on the distribution time that
    [getRewardMetrics] computed at [fetchedAt] and read at a later
    [now]: it either announces the distribution or shows minutes and seconds
    below 60 that add up to the whole seconds left, and its hour field is
    always 0, since the distribution time is less than one hour after the
    fetch. *)
Theorem countdown_never_shows_an_hour (fetchedAt now : Z) :
  (fetchedAt <= now)%Z ->
  let diff := (nextHour fetchedAt - now)%Z in
  if (diff <=? 0)%Z
  then timeLeft (nextHour fetchedAt) now = "Distribution in progress..."
  else
    exists minutes seconds,
      countdownFields diff = (0, minutes, seconds)%Z
      /\ (0 <= minutes < 60 /\ 0 <= seconds < 60)%Z
      /\ (minutes * 60 + seconds = diff / 1000)%Z
      /\ timeLeft (nextHour fetchedAt) now
         = String.append "00:" (String.append (pad2 minutes)
                                  (String.append ":" (pad2 seconds))).
Proof.
  intros Hle diff. unfold timeLeft. fold diff.
  destruct (diff <=? 0)%Z eqn:E; [reflexivity|].
  apply Z.leb_gt in E.
  pose proof (nextHour_bounds fetchedAt) as [[_ Hup] _].
  assert (Hlt : (diff < 3600000)%Z) by (subst diff; lia).
  pose proof (countdownFields_spec diff E) as Hspec.
  assert (Hh : (diff / (1000 * 60 * 60) = 0)%Z) by (apply Z.div_small; lia).
  unfold countdownFields in *. rewrite Hh in *.
  destruct Hspec as (_ & Hm & Hs & Hsum).
  eexists. eexists. split; [reflexivity|]. split; [split; assumption|].
  split; [lia | reflexivity].
Qed.

Lemma countdown_never_shows_an_hour_witness :
  (1700000000000 <= 1700000100000)%Z
  /\ timeLeft (nextHour 1700000000000) 1700000100000 = "00:45:00"
  /\ exists minutes seconds,
       countdownFields (nextHour 1700000000000 - 1700000100000) = (0, minutes, seconds)%Z.
Proof.
  assert (Hle : (1700000000000 <= 1700000100000)%Z) by lia.
  split; [exact Hle|]. split; [vm_compute; reflexivity|].
  pose proof (countdown_never_shows_an_hour 1700000000000 1700000100000 Hle) as H.
  cbv zeta in H.
  replace (nextHour 1700000000000 - 1700000100000 <=? 0)%Z with false in H
    by (vm_compute; reflexivity).
  destruct H as (minutes & seconds & H & _). exists minutes, seconds. exact H.
Defined.

End CountdownFacts.
